(** * useRBAC: derived action names, the allowed-actions map and the check life cycle

    Shallow embedding of
    [packages/core/admin/admin/src/hooks/useRBAC.ts].

    JavaScript strings are modelled as [string] (sequences of 8-bit
    characters); the separators ['.'] and ['-'] and the letters that
    [toUpperCase] changes are the ASCII ones.  JavaScript objects used as
    records of flags are association lists kept in own-property order. *)

From Stdlib Require Import List String Ascii Bool Arith NArith Lia.
Import ListNotations.
Local Open Scope string_scope.
Local Open Scope list_scope.

(** ** String primitives *)

Module JSString.

(** [s.split(sep)] for a one-character separator: always at least one
    segment, [""] splits to [[""]]. *)
Fixpoint split (sep : ascii) (s : string) : list string :=
  match s with
  | EmptyString => [EmptyString]
  | String c s' =>
      if Ascii.eqb c sep then EmptyString :: split sep s'
      else match split sep s' with
           | [] => [String c EmptyString]
           | seg :: segs => String c seg :: segs
           end
  end.

(** [arr.join('')]. *)
Definition join (parts : list string) : string :=
  String.concat EmptyString parts.

(** [arr.slice(-1)]: the array holding the last element, if any. *)
Fixpoint slice_last {A : Type} (l : list A) : list A :=
  match l with
  | [] => []
  | [x] => [x]
  | _ :: l' => slice_last l'
  end.

(** [c.toUpperCase()] on one character. *)
Definition toUpperCase (c : ascii) : ascii :=
  let n := nat_of_ascii c in
  if (Nat.leb 97 n && Nat.leb n 122)%bool then ascii_of_nat (n - 32) else c.

(** Whether a character occurs in a string. *)
Fixpoint contains (c : ascii) (s : string) : bool :=
  match s with
  | EmptyString => false
  | String c' s' => Ascii.eqb c' c || contains c s'
  end.

(** Whether every character of a string is [c]. *)
Fixpoint all_are (c : ascii) (s : string) : bool :=
  match s with
  | EmptyString => true
  | String c' s' => Ascii.eqb c' c && all_are c s'
  end.

End JSString.

Import JSString.

(** Modelled from the spec: [capitalise] of [utils/strings] is imported by
    the hook and its body is not part of the sources at hand; the spec says
    it capitalizes the first letter of its argument. *)
Definition capitalise (str : string) : string :=
  match str with
  | EmptyString => EmptyString
  | String c rest => String (toUpperCase c) rest
  end.

(** ** JavaScript objects with string keys

    An object is the list of its own enumerable properties in
    [[OwnPropertyKeys]] order: array-index keys in ascending numeric order
    first, then the other string keys in order of creation. *)

Module JSObject.

Definition t (V : Type) : Type := list (string * V).

Definition digit_of (c : ascii) : option N :=
  let n := N_of_ascii c in
  if (N.leb 48 n && N.leb n 57)%bool then Some (n - 48)%N else None.

Fixpoint digits_value (s : string) (acc : N) : option N :=
  match s with
  | EmptyString => Some acc
  | String c s' =>
      match digit_of c with
      | Some d => digits_value s' (10 * acc + d)%N
      | None => None
      end
  end.

(** A key is an array index when it is the canonical decimal form of an
    integer below [2^32 - 1]. *)
Definition array_index (k : string) : option N :=
  match k with
  | EmptyString => None
  | String c rest =>
      if (Ascii.eqb c "0" && negb (String.eqb rest EmptyString))%bool then None
      else match digits_value k 0%N with
           | Some n => if N.ltb n (2 ^ 32 - 1)%N then Some n else None
           | None => None
           end
  end.

(** Whether a new key [k] is enumerated before the existing key [k']. *)
Definition key_before (k k' : string) : bool :=
  match array_index k, array_index k' with
  | Some n, Some n' => N.ltb n n'
  | Some _, None => true
  | None, _ => false
  end.

Section Ops.
Context {V : Type}.

Definition keys (o : t V) : list string := map fst o.

Definition values (o : t V) : list V := map snd o.

(** [o[k]], [None] when [k] is not an own property. *)
Fixpoint get (k : string) (o : t V) : option V :=
  match o with
  | [] => None
  | (k', v) :: o' => if String.eqb k' k then Some v else get k o'
  end.

Definition has (k : string) (o : t V) : bool :=
  match get k o with Some _ => true | None => false end.

(** Assignment to an existing property keeps its position. *)
Fixpoint update (k : string) (v : V) (o : t V) : t V :=
  match o with
  | [] => []
  | (k', v') :: o' =>
      if String.eqb k' k then (k, v) :: o' else (k', v') :: update k v o'
  end.

(** Creation of a property that was absent. *)
Fixpoint add (k : string) (v : V) (o : t V) : t V :=
  match o with
  | [] => [(k, v)]
  | (k', v') :: o' =>
      if key_before k k' then (k, v) :: o else (k', v') :: add k v o'
  end.

(** [o[k] = v]. *)
Definition set (k : string) (v : V) (o : t V) : t V :=
  if has k o then update k v o else add k v o.

(** [{...dst, ...src}]: the properties of [src] are copied onto [dst] in
    enumeration order. *)
Definition spread (src dst : t V) : t V :=
  fold_left (fun acc kv => set (fst kv) (snd kv) acc) src dst.

(** Spreading [undefined] copies nothing. *)
Definition spread_opt (src : option (t V)) (dst : t V) : t V :=
  match src with
  | Some o => spread o dst
  | None => dst
  end.

End Ops.

End JSObject.

(** Membership of a key in a list of keys. *)
Definition mem (k : string) (l : list string) : bool :=
  existsb (String.eqb k) l.

(** ** The console and the run-once wrapper *)

Record Process := {
  once_called : bool;
  console : list string
}.

Definition Eff (A : Type) : Type := Process -> A * Process.

Definition ret {A : Type} (a : A) : Eff A := fun w => (a, w).

Definition bind {A B : Type} (m : Eff A) (f : A -> Eff B) : Eff B :=
  fun w => let (a, w') := m w in f a w'.

Notation "x <- m ;; k" := (bind m (fun x => k))
  (at level 61, m at next level, right associativity).

(** [console.warn(msg)]. *)
Definition console_warn (msg : string) : Eff unit :=
  fun w => (tt, {| once_called := once_called w; console := console w ++ [msg] |}).

(** Modelled from the spec: [once] of [utils/once] is imported by the hook
    and its body is not part of the sources at hand; the spec describes it
    as a generic run-once wrapper whose memory is process-wide: the wrapped
    function runs on the first call of the process lifetime and never
    again. *)
Definition once (fn : string -> Eff unit) : string -> Eff unit :=
  fun msg w =>
    if once_called w then (tt, w)
    else let (_, w') := fn msg w in
         (tt, {| once_called := true; console := console w' |}).

Definition initialProcess : Process :=
  {| once_called := false; console := [] |}.

Definition deprecation_message : string :=
  "useRBAC: The first argument should be an array of permissions, not an object. This will be deprecated in the future.".

(** The console of a process that warned at most once. *)
Definition warned_at_most_once (w : Process) : Prop :=
  (once_called w = false /\ console w = []) \/
  (once_called w = true /\ console w = [deprecation_message]).

(** A permission carrying nothing but its action string, for concrete
    evaluation. *)
Record ActionOnly := { ao_action : string }.

Definition ActionOnly_eqb (p q : ActionOnly) : bool :=
  String.eqb (ao_action p) (ao_action q).

(** ** The hook *)

Section UseRBAC.

(** [Permission] comes from [features/Auth]; the hook reads its [action]
    only.  [Permission_isEqual] is lodash's deep equality on two
    permissions, [JSValue] the type of rejection values. *)
Context {Permission JSValue : Type}.
Variable action : Permission -> string.
Variable Permission_isEqual : Permission -> Permission -> bool.

(** [const [action = ''] = permission.action.split('.').slice(-1);
     return action.split('-').map(capitalise).join('');] *)
Definition getActionName (permission : Permission) : string :=
  let action :=
    match slice_last (split "." (action permission)) with
    | [] => EmptyString
    | a :: _ => a
    end in
  join (map capitalise (split "-" action)).

(** The deriver as the specification words it: last ['.']-segment, split on
    ['-'], capitalise each part, concatenate. *)
Definition spec_derivedActionName (a : string) : string :=
  String.concat EmptyString
    (map capitalise (split "-" (last (split "." a) EmptyString))).

(** The property key written by the result shaper:
    [`can${capitalise(name)}`]. *)
Definition actionKey (name : string) : string :=
  String.append "can" (capitalise name).

(** The first argument: an array, or the deprecated object of groups. *)
Inductive PermissionsToCheck :=
| ArrayForm (l : list Permission)
| ObjectForm (o : JSObject.t (list Permission)).

(** What one render of the hook reads from its caller, from the other
    hooks and from React: the two arguments, [useAuth]'s loading flag, the
    debounced locale, the two [usePrev] values, and what React's comparison
    of dependencies found for the memo of the normalized list and for the
    effect (both [true] at the first render). *)
Record Env := {
  permissionsToCheck : option PermissionsToCheck;
  passedPermissions : option (list Permission);
  isLoadingAuth : bool;
  debouncedLocale : option string;
  permssionsChecked : option (list Permission);
  localeChecked : option string;
  memoStale : bool;
  depsChanged : bool
}.

(** The three [useState] cells, and the calls made to
    [checkUserHasPermissions] so far. *)
Record Hook := {
  isLoading : bool;
  error : option JSValue;
  data : option (JSObject.t bool);
  checkCalls : list (list Permission * option (list Permission))
}.

Definition initialHook : Hook :=
  {| isLoading := true; error := None; data := None; checkCalls := [] |}.

Definition setIsLoading (b : bool) (h : Hook) : Hook :=
  {| isLoading := b; error := error h; data := data h; checkCalls := checkCalls h |}.

Definition setError (e : option JSValue) (h : Hook) : Hook :=
  {| isLoading := isLoading h; error := e; data := data h; checkCalls := checkCalls h |}.

Definition setData (d : option (JSObject.t bool)) (h : Hook) : Hook :=
  {| isLoading := isLoading h; error := error h; data := d; checkCalls := checkCalls h |}.

Definition checkUserHasPermissions
    (perms : list Permission) (passed : option (list Permission)) (h : Hook) : Hook :=
  {| isLoading := isLoading h; error := error h; data := data h;
     checkCalls := checkCalls h ++ [(perms, passed)] |}.

(** The default parameter [permissionsToCheck = []]. *)
Definition permissionsArg (env : Env) : PermissionsToCheck :=
  match permissionsToCheck env with
  | Some p => p
  | None => ArrayForm []
  end.

Definition warnOnce : string -> Eff unit := once console_warn.

(** [Object.values(permissionsToCheck).flat()]. *)
Definition flat_values (o : JSObject.t (list Permission)) : list Permission :=
  List.concat (JSObject.values o).

(** [React.useMemo(body, deps)]: the body runs when a dependency changed;
    a memo that is kept holds the value its body returned for the same
    dependencies, and runs nothing. *)
Definition useMemo {A : Type} (stale : bool) (body : Eff A) : Eff A :=
  fun w => if stale then body w else (fst (body w), w).

Definition actualPermissionsToCheck (p : PermissionsToCheck) : Eff (list Permission) :=
  match p with
  | ArrayForm l => ret l
  | ObjectForm o =>
      _ <- warnOnce deprecation_message ;;
      ret (flat_values o)
  end.

(** The reducer shared by the default map and the stored result:
    [{ ...acc, [getActionName(permission)]: flag }]. *)
Definition flagAction (flag : bool) (acc : JSObject.t bool) (permission : Permission)
  : JSObject.t bool :=
  JSObject.set (getActionName permission) flag (JSObject.spread acc []).

Definition defaultAllowedActions (actual : list Permission) : JSObject.t bool :=
  fold_left (flagAction false) actual [].

Fixpoint isEqual_list (l1 l2 : list Permission) : bool :=
  match l1, l2 with
  | [], [] => true
  | p :: l1', q :: l2' => Permission_isEqual p q && isEqual_list l1' l2'
  | _, _ => false
  end.

(** [isEqual(permssionsChecked, actualPermissionsToCheck)]. *)
Definition isEqual (prev : option (list Permission)) (cur : list Permission) : bool :=
  match prev with
  | None => false
  | Some l => isEqual_list l cur
  end.

(** [localeChecked !== debouncedLocale]. *)
Definition locale_differs (a b : option string) : bool :=
  match a, b with
  | None, None => false
  | Some x, Some y => negb (String.eqb x y)
  | _, _ => true
  end.

Definition effect_condition (env : Env) (actual : list Permission) : bool :=
  negb (isEqual (permssionsChecked env) actual)
  || locale_differs (localeChecked env) (debouncedLocale env).

(** The [.then] callback. *)
Definition onFulfilled (res : option (list Permission)) (h : Hook) : Hook :=
  match res with
  | Some granted => setData (Some (fold_left (flagAction true) granted [])) h
  | None => h
  end.

(** The [.catch] callback. *)
Definition onRejected (err : option JSValue) (h : Hook) : Hook :=
  setError err h.

(** The [.finally] callback. *)
Definition onFinally (h : Hook) : Hook :=
  setIsLoading false h.

(** The body of [React.useEffect], up to the call of the external check. *)
Definition effect (env : Env) (actual : list Permission) (h : Hook) : Hook :=
  if effect_condition env actual then
    checkUserHasPermissions actual (passedPermissions env)
      (setError None (setData None (setIsLoading true h)))
  else h.

(** How the promise of one check settles. *)
Inductive Settlement :=
| Fulfilled (res : option (list Permission))
| Rejected (err : option JSValue).

(** [.then(..).catch(..).finally(..)] run on a settled promise. *)
Definition settle (c : Settlement) (h : Hook) : Hook :=
  match c with
  | Fulfilled res => onFinally (onFulfilled res h)
  | Rejected err => onFinally (onRejected err h)
  end.

(** [Object.entries({...defaultAllowedActions, ...data}).reduce(...)]. *)
Definition allowedActions
    (default : JSObject.t bool) (d : option (JSObject.t bool)) : JSObject.t bool :=
  fold_left
    (fun acc entry => JSObject.set (actionKey (fst entry)) (snd entry) acc)
    (JSObject.spread_opt d (JSObject.spread default []))
    [].

Record Result := {
  res_allowedActions : JSObject.t bool;
  res_permissions : list Permission;
  res_isLoading : bool;
  res_error : option JSValue
}.

(** One render: the value the hook returns. *)
Definition useRBAC (env : Env) (h : Hook) : Eff Result :=
  actual <- useMemo (memoStale env)
              (actualPermissionsToCheck (permissionsArg env)) ;;
  ret {| res_allowedActions := allowedActions (defaultAllowedActions actual) (data h);
         res_permissions := actual;
         res_isLoading := isLoading h || isLoadingAuth env;
         res_error := error h |}.

(** What happens to one mounted hook: a render, followed by its effect
    when a dependency of the effect changed, or the settlement of a check
    it started. *)
Inductive Event :=
| Render (env : Env)
| Settle (c : Settlement).

Definition step (ev : Event) (st : Hook * Process) : Hook * Process :=
  match ev with
  | Render env =>
      let (out, w) := useRBAC env (fst st) (snd st) in
      (if depsChanged env then effect env (res_permissions out) (fst st)
       else fst st, w)
  | Settle c => (settle c (fst st), snd st)
  end.

Definition run (evs : list Event) (st : Hook * Process) : Hook * Process :=
  fold_left (fun st ev => step ev st) evs st.

(** Several mounted hooks of one process, told apart by a number; they
    share the console. *)
Record System := {
  instances : nat -> Hook;
  process : Process
}.

Definition initialSystem : System :=
  {| instances := fun _ => initialHook; process := initialProcess |}.

Definition sys_step (iev : nat * Event) (sys : System) : System :=
  let (h, w) := step (snd iev) (instances sys (fst iev), process sys) in
  {| instances := fun j => if Nat.eqb j (fst iev) then h else instances sys j;
     process := w |}.

Definition sys_run (evs : list (nat * Event)) (sys : System) : System :=
  fold_left (fun sys iev => sys_step iev sys) evs sys.

(** The value a render returns, leaving the console aside. *)
Definition returned (env : Env) (h : Hook) : Result :=
  fst (useRBAC env h initialProcess).

(** The flag the returned map holds for a permission's action. *)
Definition flagOf (r : Result) (permission : Permission) : option bool :=
  JSObject.get (actionKey (getActionName permission)) (res_allowedActions r).

(** The object [{...defaultAllowedActions, ...data}] the shaper iterates. *)
Definition merged (actual : list Permission) (d : option (JSObject.t bool))
  : JSObject.t bool :=
  JSObject.spread_opt d (JSObject.spread (defaultAllowedActions actual) []).

(** The [data] a fulfilled check stores. *)
Definition stored (res : option (list Permission)) : option (JSObject.t bool) :=
  option_map (fun granted => fold_left (flagAction true) granted []) res.

Definition grantedList (res : option (list Permission)) : list Permission :=
  match res with Some granted => granted | None => [] end.

(** One entry of the returned map, from one entry of the merged object. *)
Definition shapeEntry (entry : string * bool) : string * bool :=
  (actionKey (fst entry), snd entry).

(** The derived action names of a list of permissions. *)
Definition actionNames (l : list Permission) : list string :=
  map getActionName l.

(** The value of the memo [actualPermissionsToCheck] at a render. *)
Definition normalized (env : Env) : list Permission :=
  fst (actualPermissionsToCheck (permissionsArg env) initialProcess).

(** The granted list a settlement hands to the [.then] callback. *)
Definition settledResult (c : Settlement) : option (list Permission) :=
  match c with
  | Fulfilled res => res
  | Rejected _ => None
  end.

(** A render and the settlement of the check its effect started. *)
Definition checkAndSettle (env : Env) (c : Settlement) (h : Hook) : Hook :=
  settle c (effect env (normalized env) h).

(** The first render of [useRBAC(l)]: nothing was checked before, no
    locale, auth not loading. *)
Definition mountEnv (l : list Permission) : Env :=
  {| permissionsToCheck := Some (ArrayForm l);
     passedPermissions := None;
     isLoadingAuth := false;
     debouncedLocale := None;
     permssionsChecked := None;
     localeChecked := None;
     memoStale := true;
     depsChanged := true |}.

(** The same call with the deprecated object replaced by the flattened
    array of its values, in their iteration order. *)
Definition arrayFormArg (p : PermissionsToCheck) : PermissionsToCheck :=
  match p with
  | ArrayForm l => ArrayForm l
  | ObjectForm o => ArrayForm (List.concat (map snd o))
  end.

Definition arrayFormEnv (env : Env) : Env :=
  {| permissionsToCheck := option_map arrayFormArg (permissionsToCheck env);
     passedPermissions := passedPermissions env;
     isLoadingAuth := isLoadingAuth env;
     debouncedLocale := debouncedLocale env;
     permssionsChecked := permssionsChecked env;
     localeChecked := localeChecked env;
     memoStale := memoStale env;
     depsChanged := depsChanged env |}.

Definition arrayFormEvent (ev : Event) : Event :=
  match ev with
  | Render env => Render (arrayFormEnv env)
  | Settle c => Settle c
  end.

(** Whether the effect of a render starts a check: React runs the effect
    and its condition holds. *)
Definition triggering (env : Env) : bool :=
  depsChanged env && effect_condition env (normalized env).

(** The arguments of the external check started at a render. *)
Definition callOf (env : Env) : list Permission * option (list Permission) :=
  (normalized env, passedPermissions env).

(** The renders of a trace whose effect starts a check, in order. *)
Fixpoint triggeringRenders (evs : list Event) : list Env :=
  match evs with
  | [] => []
  | Render env :: evs' =>
      if triggering env then env :: triggeringRenders evs'
      else triggeringRenders evs'
  | Settle _ :: evs' => triggeringRenders evs'
  end.

(** The granted list the hook holds after an event: a triggering render
    clears it, a fulfilment with a list replaces it, anything else keeps
    it. *)
Definition resultAfter (acc : option (list Permission)) (ev : Event)
  : option (list Permission) :=
  match ev with
  | Render env => if triggering env then None else acc
  | Settle (Fulfilled (Some granted)) => Some granted
  | Settle _ => acc
  end.

(** The granted list held after a trace that starts at mount: that of the
    latest fulfilment with a list since the last triggering render. *)
Definition lastResult (evs : list Event) : option (list Permission) :=
  fold_left resultAfter evs None.

(** Whether a render is given the array form (or no first argument). *)
Definition arrayArgument (env : Env) : bool :=
  match permissionsArg env with
  | ArrayForm _ => true
  | ObjectForm _ => false
  end.

End UseRBAC.

(** ** Concrete inputs

    Two permissions, a first render asking about both, and a freshly
    mounted hook whose rejection values are numbers. *)

Definition roles_create : ActionOnly := {| ao_action := "admin::roles.create" |}.
Definition roles_delete : ActionOnly := {| ao_action := "admin::roles.delete" |}.
Definition demoEnv : @Env ActionOnly := mountEnv [roles_create; roles_delete].
Definition demoHook : @Hook ActionOnly nat := initialHook.

(** A first render given the deprecated object of two groups, one given no
    first argument, and a later render of [demoEnv] after its list was
    checked. *)
Definition groupedEnv : @Env ActionOnly :=
  {| permissionsToCheck :=
       Some (ObjectForm [("roles", [roles_create]); ("users", [roles_delete])]);
     passedPermissions := None;
     isLoadingAuth := false;
     debouncedLocale := None;
     permssionsChecked := None;
     localeChecked := None;
     memoStale := true;
     depsChanged := true |}.

Definition noArgumentEnv : @Env ActionOnly :=
  {| permissionsToCheck := None;
     passedPermissions := None;
     isLoadingAuth := false;
     debouncedLocale := None;
     permssionsChecked := None;
     localeChecked := None;
     memoStale := true;
     depsChanged := true |}.

Definition users_create : ActionOnly := {| ao_action := "admin::users.create" |}.

(** A first render asking about [roles_create] while auth is loading. *)
Definition authLoadingEnv : @Env ActionOnly :=
  {| permissionsToCheck := Some (ArrayForm [roles_create]);
     passedPermissions := None;
     isLoadingAuth := true;
     debouncedLocale := None;
     permssionsChecked := None;
     localeChecked := None;
     memoStale := true;
     depsChanged := true |}.

Definition settledEnv : @Env ActionOnly :=
  {| permissionsToCheck := Some (ArrayForm [roles_create; roles_delete]);
     passedPermissions := None;
     isLoadingAuth := false;
     debouncedLocale := Some "en";
     permssionsChecked := Some [roles_create; roles_delete];
     localeChecked := Some "en";
     memoStale := true;
     depsChanged := true |}.

(** ** Facts about objects *)

Module JSObjectFacts.
Import JSObject.

Section Facts.
Context {V : Type}.
Implicit Types (o src dst : t V) (k : string) (v : V).

Lemma get_update k v o k' :
  get k' (update k v o) =
  if String.eqb k k' then match get k o with Some _ => Some v | None => None end
  else get k' o.
Proof.
  induction o as [|[k0 v0] o IH]; simpl.
  - now destruct (String.eqb k k').
  - destruct (String.eqb_spec k0 k) as [->|Hne]; simpl.
    + destruct (String.eqb k k'); reflexivity.
    + rewrite IH.
      destruct (String.eqb_spec k0 k') as [->|Hne'].
      * destruct (String.eqb_spec k k') as [E|_]; [now subst|reflexivity].
      * reflexivity.
Qed.

Lemma get_add k v o k' :
  get k o = None ->
  get k' (add k v o) = if String.eqb k k' then Some v else get k' o.
Proof.
  induction o as [|[k0 v0] o IH]; simpl; intros Hk.
  - reflexivity.
  - destruct (String.eqb_spec k0 k) as [->|Hne]; [discriminate|].
    destruct (key_before k k0); simpl.
    + reflexivity.
    + rewrite (IH Hk).
      destruct (String.eqb_spec k0 k') as [->|_].
      * destruct (String.eqb_spec k k') as [E|_]; [now subst|reflexivity].
      * reflexivity.
Qed.

Lemma get_set k v o k' :
  get k' (set k v o) = if String.eqb k k' then Some v else get k' o.
Proof.
  unfold set, has. destruct (get k o) eqn:E.
  - rewrite get_update, E. reflexivity.
  - now apply get_add.
Qed.

Lemma In_keys_get k o : In k (keys o) <-> get k o <> None.
Proof.
  induction o as [|[k0 v0] o IH]; simpl.
  - split; [tauto|congruence].
  - destruct (String.eqb_spec k0 k) as [->|Hne].
    + split; [discriminate|auto].
    + rewrite <- IH. split; [intros [E|H]; [contradiction|exact H]|auto].
Qed.

Lemma get_None_keys k o : get k o = None <-> ~ In k (keys o).
Proof.
  rewrite In_keys_get. destruct (get k o); split; try congruence.
  intros H. exfalso. apply H. discriminate.
Qed.

Lemma keys_update k v o : keys (update k v o) = keys o.
Proof.
  induction o as [|[k0 v0] o IH]; simpl; [reflexivity|].
  destruct (String.eqb_spec k0 k) as [->|_]; simpl; [reflexivity|].
  now rewrite IH.
Qed.

Lemma In_keys_add k v o k' :
  In k' (keys (add k v o)) <-> k' = k \/ In k' (keys o).
Proof.
  induction o as [|[k0 v0] o IH]; simpl.
  - intuition.
  - destruct (key_before k k0); simpl; [intuition|].
    rewrite IH. intuition.
Qed.

Lemma NoDup_keys_add k v o :
  ~ In k (keys o) -> NoDup (keys o) -> NoDup (keys (add k v o)).
Proof.
  induction o as [|[k0 v0] o IH]; simpl; intros Hk Hnd.
  - constructor; [tauto|constructor].
  - destruct (key_before k k0); simpl.
    + constructor; [simpl; exact Hk|exact Hnd].
    + inversion Hnd as [|? ? Hk0 Hnd']; subst.
      constructor.
      * rewrite In_keys_add. intros [->|H]; [apply Hk; now left|contradiction].
      * apply IH; [tauto|exact Hnd'].
Qed.

Lemma In_keys_set k v o k' :
  In k' (keys (set k v o)) <-> k' = k \/ In k' (keys o).
Proof.
  rewrite !In_keys_get, get_set.
  destruct (String.eqb_spec k k') as [->|Hne].
  - split; [auto|discriminate].
  - split; [auto|]. intros [->|H]; [contradiction|exact H].
Qed.

Lemma NoDup_keys_set k v o : NoDup (keys o) -> NoDup (keys (set k v o)).
Proof.
  intros Hnd. unfold set, has. destruct (get k o) eqn:E.
  - now rewrite keys_update.
  - apply NoDup_keys_add; [now apply get_None_keys|exact Hnd].
Qed.

(** A key that is not an array index is created behind all others. *)
Lemma add_not_index k v o :
  array_index k = None -> add k v o = o ++ [(k, v)].
Proof.
  intros Hk. induction o as [|[k0 v0] o IH]; simpl; [reflexivity|].
  unfold key_before. rewrite Hk. now rewrite IH.
Qed.

Lemma set_fresh_not_index k v o :
  array_index k = None -> ~ In k (keys o) -> set k v o = o ++ [(k, v)].
Proof.
  intros Hk Hin. unfold set, has.
  apply get_None_keys in Hin. rewrite Hin. now apply add_not_index.
Qed.

Lemma get_spread src : forall dst k,
  NoDup (keys src) ->
  get k (spread src dst) =
  match get k src with Some v => Some v | None => get k dst end.
Proof.
  unfold spread.
  induction src as [|[k0 v0] src IH]; simpl; intros dst k Hnd; [reflexivity|].
  inversion Hnd as [|? ? Hk0 Hnd']; subst.
  rewrite (IH _ _ Hnd'), get_set.
  destruct (String.eqb_spec k0 k) as [->|_]; [|reflexivity].
  apply get_None_keys in Hk0. now rewrite Hk0.
Qed.

Lemma NoDup_keys_spread src : forall dst,
  NoDup (keys dst) -> NoDup (keys (spread src dst)).
Proof.
  unfold spread.
  induction src as [|[k0 v0] src IH]; simpl; intros dst Hnd; [exact Hnd|].
  apply IH. now apply NoDup_keys_set.
Qed.

Lemma In_keys_spread src : forall dst k,
  In k (keys (spread src dst)) <-> In k (keys src) \/ In k (keys dst).
Proof.
  unfold spread.
  induction src as [|[k0 v0] src IH]; simpl; intros dst k; [tauto|].
  rewrite IH, In_keys_set. intuition.
Qed.

Lemma get_spread_empty src k :
  NoDup (keys src) -> get k (spread src []) = get k src.
Proof.
  intros Hnd. rewrite get_spread by exact Hnd. now destruct (get k src).
Qed.

End Facts.

End JSObjectFacts.

(** ** Facts about strings *)

Lemma toUpperCase_idem c : toUpperCase (toUpperCase c) = toUpperCase c.
Proof.
  destruct c as [[] [] [] [] [] [] [] []]; reflexivity.
Qed.

Lemma append_empty_r s : String.append s EmptyString = s.
Proof.
  induction s as [|c s IH]; simpl; [reflexivity|now rewrite IH].
Qed.

Lemma join_cons x xs : join (x :: xs) = String.append x (join xs).
Proof.
  unfold join. destruct xs as [|y ys]; simpl.
  - now rewrite append_empty_r.
  - reflexivity.
Qed.

Lemma capitalise_join_capitalised parts :
  capitalise (join (map capitalise parts)) = join (map capitalise parts).
Proof.
  induction parts as [|x xs IH]; [reflexivity|].
  simpl map. rewrite join_cons.
  destruct x as [|c r]; simpl.
  - exact IH.
  - now rewrite toUpperCase_idem.
Qed.

Lemma split_not_nil sep s : split sep s <> [].
Proof.
  destruct s as [|c s]; simpl; [discriminate|].
  destruct (Ascii.eqb c sep); [discriminate|].
  destruct (split sep s); discriminate.
Qed.

Lemma split_without_separator sep s :
  contains sep s = false -> split sep s = [s].
Proof.
  induction s as [|c s IH]; simpl; [reflexivity|].
  intros H. apply orb_false_iff in H as [Hc Hs].
  rewrite Hc, (IH Hs). reflexivity.
Qed.

Lemma slice_last_singleton {A : Type} (l : list A) (d : A) :
  l <> [] -> slice_last l = [last l d].
Proof.
  induction l as [|x l IH]; [congruence|intros _].
  destruct l as [|y l]; [reflexivity|].
  change (slice_last (x :: y :: l)) with (slice_last (y :: l)).
  change (last (x :: y :: l) d) with (last (y :: l) d).
  apply IH. discriminate.
Qed.

Lemma array_index_actionKey n : JSObject.array_index (actionKey n) = None.
Proof. reflexivity. Qed.

Lemma actionKey_inj n1 n2 :
  capitalise n1 = n1 -> capitalise n2 = n2 ->
  actionKey n1 = actionKey n2 -> n1 = n2.
Proof.
  unfold actionKey. intros H1 H2 H. simpl in H.
  injection H as H. congruence.
Qed.

Lemma mem_In k l : mem k l = true <-> In k l.
Proof.
  unfold mem. rewrite existsb_exists. split.
  - intros (x & Hx & E). apply String.eqb_eq in E. now subst.
  - intros H. exists k. split; [exact H|apply String.eqb_refl].
Qed.

Lemma mem_false_In k l : mem k l = false <-> ~ In k l.
Proof.
  rewrite <- mem_In. destruct (mem k l); split; congruence.
Qed.

(** ** Facts about the hook *)

Section HookFacts.

Context {Permission JSValue : Type}.
Variable action : Permission -> string.
Variable Permission_isEqual : Permission -> Permission -> bool.

Import JSObject JSObjectFacts.

Lemma capitalise_getActionName p :
  capitalise (getActionName action p) = getActionName action p.
Proof. unfold getActionName. apply capitalise_join_capitalised. Qed.

Lemma capitalise_actionNames l n :
  In n (actionNames action l) -> capitalise n = n.
Proof.
  unfold actionNames. rewrite in_map_iff. intros (p & <- & _).
  apply capitalise_getActionName.
Qed.

Lemma NoDup_fold_flagAction b l : forall acc,
  NoDup (keys acc) -> NoDup (keys (fold_left (flagAction action b) l acc)).
Proof.
  induction l as [|p l IH]; simpl; intros acc Hnd; [exact Hnd|].
  apply IH. unfold flagAction. apply NoDup_keys_set, NoDup_keys_spread.
  constructor.
Qed.

Lemma get_fold_flagAction b l : forall acc n,
  NoDup (keys acc) ->
  get n (fold_left (flagAction action b) l acc) =
  if mem n (actionNames action l) then Some b else get n acc.
Proof.
  induction l as [|p l IH]; simpl; intros acc n Hnd; [reflexivity|].
  rewrite IH.
  - unfold flagAction. rewrite get_set, get_spread_empty by exact Hnd.
    rewrite (String.eqb_sym n).
    destruct (mem n (actionNames action l)); [now rewrite orb_true_r|].
    now rewrite orb_false_r.
  - unfold flagAction. apply NoDup_keys_set, NoDup_keys_spread. constructor.
Qed.

Lemma In_keys_fold_flagAction b l n :
  In n (keys (fold_left (flagAction action b) l [])) <->
  In n (actionNames action l).
Proof.
  rewrite In_keys_get, get_fold_flagAction by constructor.
  rewrite <- mem_In. destruct (mem n (actionNames action l)); simpl.
  - split; [reflexivity|discriminate].
  - split; [congruence|discriminate].
Qed.

Lemma NoDup_merged actual res : NoDup (keys (merged action actual (stored action res))).
Proof.
  unfold merged. destruct res as [granted|]; simpl;
    repeat apply NoDup_keys_spread; constructor.
Qed.

Lemma get_merged actual res n :
  get n (merged action actual (stored action res)) =
  if mem n (actionNames action (grantedList res)) then Some true
  else if mem n (actionNames action actual) then Some false
  else None.
Proof.
  assert (Hd : get n (spread (defaultAllowedActions action actual) []) =
               if mem n (actionNames action actual) then Some false else None).
  { unfold defaultAllowedActions.
    rewrite get_spread_empty by (apply NoDup_fold_flagAction; constructor).
    now rewrite get_fold_flagAction by constructor. }
  unfold merged. destruct res as [granted|]; simpl.
  - rewrite get_spread by (apply NoDup_fold_flagAction; constructor).
    rewrite get_fold_flagAction by constructor. simpl.
    destruct (mem n (actionNames action granted)); [reflexivity|exact Hd].
  - exact Hd.
Qed.

Lemma In_keys_merged actual res n :
  In n (keys (merged action actual (stored action res))) <->
  In n (actionNames action actual) \/ In n (actionNames action (grantedList res)).
Proof.
  rewrite In_keys_get, get_merged, <- !mem_In.
  destruct (mem n (actionNames action (grantedList res)));
    destruct (mem n (actionNames action actual)); simpl;
    intuition congruence.
Qed.

Lemma capitalise_keys_merged actual res n :
  In n (keys (merged action actual (stored action res))) -> capitalise n = n.
Proof.
  rewrite In_keys_merged. intros [H|H]; eapply capitalise_actionNames; eauto.
Qed.

(** The shaper renames the keys of an object whose keys are derived action
    names, and keeps their order. *)
Lemma shape_fold es : forall acc,
  NoDup (keys acc ++ map actionKey (keys es)) ->
  fold_left (fun acc entry => set (actionKey (fst entry)) (snd entry) acc) es acc =
  acc ++ map shapeEntry es.
Proof.
  induction es as [|[n a] es IH]; simpl; intros acc Hnd.
  - now rewrite app_nil_r.
  - rewrite set_fresh_not_index.
    + rewrite IH.
      * now rewrite <- app_assoc.
      * unfold keys in *. rewrite map_app, <- app_assoc. exact Hnd.
    + apply array_index_actionKey.
    + apply NoDup_remove_2 in Hnd. intros H. apply Hnd, in_or_app. now left.
Qed.

Lemma NoDup_map_actionKey l :
  (forall n, In n l -> capitalise n = n) -> NoDup l -> NoDup (map actionKey l).
Proof.
  induction l as [|n l IH]; simpl; intros Hfix Hnd; [constructor|].
  inversion Hnd as [|? ? Hn Hnd']; subst. constructor.
  - rewrite in_map_iff. intros (m & E & Hm). apply Hn.
    apply actionKey_inj in E; [now subst|auto|auto].
  - apply IH; auto.
Qed.

Lemma allowedActions_shape actual res :
  allowedActions (defaultAllowedActions action actual) (stored action res) =
  map shapeEntry (merged action actual (stored action res)).
Proof.
  unfold allowedActions. fold (merged action actual (stored action res)).
  rewrite shape_fold; [reflexivity|]. simpl.
  apply NoDup_map_actionKey.
  - intros n. apply capitalise_keys_merged.
  - apply NoDup_merged.
Qed.

Lemma keys_map_shapeEntry es : keys (map shapeEntry es) = map actionKey (keys es).
Proof.
  unfold keys. rewrite !map_map. reflexivity.
Qed.

Lemma get_map_shapeEntry es n :
  (forall m, In m (keys es) -> capitalise m = m) -> capitalise n = n ->
  get (actionKey n) (map shapeEntry es) = get n es.
Proof.
  induction es as [|[m a] es IH]; simpl; intros Hfix Hn; [reflexivity|].
  rewrite (Hfix m (or_introl eq_refl)), Hn.
  destruct (String.eqb m n); [reflexivity|].
  apply IH; auto.
Qed.

(** The returned map, key by key. *)
Lemma allowedActions_keys actual res :
  keys (allowedActions (defaultAllowedActions action actual) (stored action res)) =
  map actionKey (keys (merged action actual (stored action res))).
Proof. now rewrite allowedActions_shape, keys_map_shapeEntry. Qed.

Lemma NoDup_allowedActions actual res :
  NoDup (keys (allowedActions (defaultAllowedActions action actual) (stored action res))).
Proof.
  rewrite allowedActions_keys. apply NoDup_map_actionKey.
  - intros n. apply capitalise_keys_merged.
  - apply NoDup_merged.
Qed.

Lemma In_keys_allowedActions actual res K :
  In K (keys (allowedActions (defaultAllowedActions action actual) (stored action res))) <->
  exists n, K = actionKey n /\
            (In n (actionNames action actual) \/
             In n (actionNames action (grantedList res))).
Proof.
  rewrite allowedActions_keys, in_map_iff. split.
  - intros (n & <- & Hn). exists n. split; [reflexivity|].
    now apply In_keys_merged.
  - intros (n & -> & Hn). exists n. split; [reflexivity|].
    now apply In_keys_merged.
Qed.

Lemma get_allowedActions actual res n :
  capitalise n = n ->
  get (actionKey n) (allowedActions (defaultAllowedActions action actual) (stored action res)) =
  if mem n (actionNames action (grantedList res)) then Some true
  else if mem n (actionNames action actual) then Some false
  else None.
Proof.
  intros Hn. rewrite allowedActions_shape, get_map_shapeEntry.
  - apply get_merged.
  - intros m. apply capitalise_keys_merged.
  - exact Hn.
Qed.

(** The returned map at an arbitrary key. *)
Lemma get_allowedActions_total actual res K :
  get K (allowedActions (defaultAllowedActions action actual) (stored action res)) =
  if mem K (map actionKey (actionNames action (grantedList res))) then Some true
  else if mem K (map actionKey (actionNames action actual)) then Some false
  else None.
Proof.
  destruct (mem K (map actionKey (actionNames action (grantedList res)))) eqn:Eg.
  - apply mem_In, in_map_iff in Eg. destruct Eg as (n & <- & Hn).
    rewrite get_allowedActions by (eapply capitalise_actionNames; eauto).
    apply mem_In in Hn. now rewrite Hn.
  - apply mem_false_In in Eg.
    destruct (mem K (map actionKey (actionNames action actual))) eqn:Ea.
    + apply mem_In, in_map_iff in Ea. destruct Ea as (n & <- & Hn).
      rewrite get_allowedActions by (eapply capitalise_actionNames; eauto).
      destruct (mem n (actionNames action (grantedList res))) eqn:E.
      * exfalso. apply Eg. apply in_map. now apply mem_In.
      * apply mem_In in Hn. now rewrite Hn.
    + apply mem_false_In in Ea. apply get_None_keys. intros Hin.
      apply In_keys_allowedActions in Hin.
      destruct Hin as (n & -> & [Hn|Hn]); [apply Ea|apply Eg]; now apply in_map.
Qed.

End HookFacts.

(** ** The render and the life cycle of a check *)

Section LifeCycle.

Context {Permission JSValue : Type}.
Variable action : Permission -> string.
Variable Permission_isEqual : Permission -> Permission -> bool.

Import JSObject JSObjectFacts.

Local Abbreviation Env := (@Env Permission).
Local Abbreviation Hook := (@Hook Permission JSValue).
Local Abbreviation Settlement := (@Settlement Permission JSValue).
Local Abbreviation Event := (@Event Permission JSValue).

(** The returned value does not depend on the console. *)
Lemma useRBAC_fst (env : Env) (h : Hook) w :
  fst (useRBAC action env h w) = returned action env h.
Proof.
  unfold returned, useRBAC, bind, useMemo.
  destruct (memoStale env);
    (destruct (permissionsArg env) as [l|o]; simpl; [reflexivity|]);
    unfold warnOnce, once, bind; destruct (once_called w); reflexivity.
Qed.

Lemma returned_allowedActions (env : Env) (h : Hook) :
  res_allowedActions (returned action env h) =
  allowedActions (defaultAllowedActions action (normalized env)) (data h).
Proof.
  unfold returned, normalized, useRBAC, bind, useMemo.
  destruct (memoStale env);
    destruct (actualPermissionsToCheck (permissionsArg env) initialProcess);
    reflexivity.
Qed.

Lemma returned_permissions (env : Env) (h : Hook) :
  res_permissions (returned action env h) = normalized env.
Proof.
  unfold returned, normalized, useRBAC, bind, useMemo.
  destruct (memoStale env);
    destruct (actualPermissionsToCheck (permissionsArg env) initialProcess);
    reflexivity.
Qed.

Lemma returned_isLoading (env : Env) (h : Hook) :
  res_isLoading (returned action env h) = isLoading h || isLoadingAuth env.
Proof.
  unfold returned, useRBAC, bind, useMemo.
  destruct (memoStale env);
    destruct (actualPermissionsToCheck (permissionsArg env) initialProcess);
    reflexivity.
Qed.

Lemma returned_error (env : Env) (h : Hook) :
  res_error (returned action env h) = error h.
Proof.
  unfold returned, useRBAC, bind, useMemo.
  destruct (memoStale env);
    destruct (actualPermissionsToCheck (permissionsArg env) initialProcess);
    reflexivity.
Qed.

Lemma normalized_cases (env : Env) :
  normalized env =
  match permissionsArg env with
  | ArrayForm l => l
  | ObjectForm o => List.concat (map snd o)
  end.
Proof.
  unfold normalized. destruct (permissionsArg env); reflexivity.
Qed.

Lemma data_started (env : Env) (h : Hook) actual :
  effect_condition Permission_isEqual env actual = true ->
  data (effect Permission_isEqual env actual h) = None /\
  isLoading (effect Permission_isEqual env actual h) = true /\
  error (effect Permission_isEqual env actual h) = None.
Proof.
  intros Hc. unfold effect. rewrite Hc. simpl. auto.
Qed.

Lemma data_checkAndSettle (env : Env) c (h : Hook) :
  effect_condition Permission_isEqual env (normalized env) = true ->
  data (checkAndSettle action Permission_isEqual env c h) =
  stored action (settledResult c).
Proof.
  intros Hc. unfold checkAndSettle, effect. rewrite Hc.
  destruct c as [[granted|]|err]; reflexivity.
Qed.

Lemma step_render (env : Env) (h : Hook) w :
  fst (step action Permission_isEqual (Render env) (h, w)) =
  if depsChanged env then effect Permission_isEqual env (normalized env) h
  else h.
Proof.
  unfold step. simpl.
  pose proof (useRBAC_fst env h w) as E.
  destruct (useRBAC action env h w) as [out w']. simpl in *. subst out.
  now rewrite returned_permissions.
Qed.

Lemma run_app evs1 evs2 (st : Hook * Process) :
  run action Permission_isEqual (evs1 ++ evs2) st =
  run action Permission_isEqual evs2 (run action Permission_isEqual evs1 st).
Proof. unfold run. apply fold_left_app. Qed.

Lemma step_settle c (st : Hook * Process) :
  step action Permission_isEqual (Settle c) st = (settle action c (fst st), snd st).
Proof. reflexivity. Qed.

Lemma run_snoc evs ev (st : Hook * Process) :
  run action Permission_isEqual (evs ++ [ev]) st =
  step action Permission_isEqual ev (run action Permission_isEqual evs st).
Proof. now rewrite run_app. Qed.

(** The result a mounted hook holds after a trace. *)
Lemma data_run (evs : list Event) (w : Process) :
  data (fst (run action Permission_isEqual evs (initialHook, w))) =
  stored action (lastResult Permission_isEqual evs).
Proof.
  induction evs as [|ev evs IH] using rev_ind; [reflexivity|].
  unfold lastResult in *. rewrite fold_left_app, run_snoc. cbn [fold_left].
  destruct (run action Permission_isEqual evs (initialHook, w)) as [h w'].
  cbn [fst] in IH.
  destruct ev as [env|c].
  - rewrite step_render. unfold resultAfter, triggering, effect.
    destruct (depsChanged env); [|exact IH].
    destruct (effect_condition _ _ _); [reflexivity|exact IH].
  - rewrite step_settle. cbn [fst].
    destruct c as [[granted|]|err]; simpl; try exact IH. reflexivity.
Qed.

(** *** The allowed-actions map *)


(** C1 (as amended): in every state a mounted hook reaches, whenever the
    list stored by the latest fulfilment since the last trigger, if one is
    stored, has its derived action names among the input's (any subset of
    the input does), the returned map has one [can]-prefixed key per
    distinct derived action name of the input, never more, never fewer. *)
Theorem allowedActions_keys_from_input (evs : list Event) (w : Process) (env : Env) :
  incl (actionNames action (grantedList (lastResult Permission_isEqual evs)))
       (actionNames action (normalized env)) ->
  let aa := res_allowedActions
              (returned action env
                 (fst (run action Permission_isEqual evs (initialHook, w)))) in
  NoDup (keys aa) /\
  forall K, In K (keys aa) <->
            In K (map actionKey (actionNames action (normalized env))).
Proof.
  intros Hincl aa. subst aa. rewrite returned_allowedActions, data_run. split.
  - apply NoDup_allowedActions.
  - intros K. rewrite In_keys_allowedActions, in_map_iff. split.
    + intros (n & -> & [Hn|Hn]); exists n; split; auto.
    + intros (n & <- & Hn). exists n. split; auto.
Qed.

(** C6: after the check resolves with a granted subset of the input, the
    flags that are [true] are exactly those of the derived actions of the
    granted permissions, every other requested action's flag is [false],
    and the map holds no key besides those of the requested actions. *)
Theorem granted_actions_flagged (env : Env) (h : Hook) (granted : list Permission) :
  effect_condition Permission_isEqual env (normalized env) = true ->
  incl granted (normalized env) ->
  let r := returned action env
             (checkAndSettle action Permission_isEqual env (Fulfilled (Some granted)) h) in
  (forall K, get K (res_allowedActions r) = Some true <->
             exists g, In g granted /\ K = actionKey (getActionName action g)) /\
  (forall p, In p granted -> flagOf action r p = Some true) /\
  (forall p, In p (normalized env) ->
             ~ In (getActionName action p) (actionNames action granted) ->
             flagOf action r p = Some false) /\
  (forall K, In K (keys (res_allowedActions r)) ->
             exists p, In p (normalized env) /\
                       K = actionKey (getActionName action p)).
Proof.
  intros Hc Hsub r.
  assert (Hr : res_allowedActions r =
               allowedActions (defaultAllowedActions action (normalized env))
                              (stored action (Some granted))).
  { subst r. rewrite returned_allowedActions, data_checkAndSettle by exact Hc.
    reflexivity. }
  assert (Hg : forall g, In g granted -> flagOf action r g = Some true).
  { intros g Hin. unfold flagOf. rewrite Hr, get_allowedActions.
    - simpl. replace (mem _ _) with true; [reflexivity|].
      symmetry. apply mem_In. now apply in_map.
    - apply capitalise_getActionName. }
  split; [|split; [|split]].
  - intros K. split.
    + intros HK.
      assert (Hin : In K (keys (res_allowedActions r))).
      { apply In_keys_get. congruence. }
      rewrite Hr in Hin, HK. apply In_keys_allowedActions in Hin.
      destruct Hin as (n & -> & Hn).
      rewrite get_allowedActions in HK.
      * simpl in HK.
        destruct (mem n (actionNames action granted)) eqn:E.
        -- apply mem_In, in_map_iff in E. destruct E as (g & <- & Hin).
           now exists g.
        -- destruct (mem n (actionNames action (normalized env))); discriminate.
      * destruct Hn as [Hn|Hn]; eapply capitalise_actionNames; eauto.
    + intros (g & Hin & ->). now apply Hg.
  - exact Hg.
  - intros p Hin Hnot. unfold flagOf. rewrite Hr, get_allowedActions.
    + simpl. apply mem_false_In in Hnot. rewrite Hnot.
      replace (mem _ _) with true; [reflexivity|].
      symmetry. apply mem_In. now apply in_map.
    + apply capitalise_getActionName.
  - intros K HK. rewrite Hr in HK. apply In_keys_allowedActions in HK.
    destruct HK as (n & -> & [Hn|Hn]);
      apply in_map_iff in Hn; destruct Hn as (p & <- & Hp);
      exists p; split; auto.
Qed.


(** C5 (as amended): after any history of a mounted hook, when a check is
    rejected with [e], the hook's [error] is [e] and its [isLoading] is
    [false], so the reported loading flag is the auth flag alone; the
    rejection stores no result, and the returned map is the all-false map
    keyed by the input's derived action names, overlaid with [true] for
    the derived action names of the list stored by the latest fulfilment
    since the last trigger, if one is stored. *)
Theorem rejection_reported
    (evs : list Event) (w : Process) (env : Env) (e : option JSValue) :
  let h' := fst (run action Permission_isEqual
                   (evs ++ [Settle (Rejected e)]) (initialHook, w)) in
  let r := returned action env h' in
  error h' = e /\ isLoading h' = false /\
  res_error r = e /\ res_isLoading r = isLoadingAuth env /\
  lastResult Permission_isEqual (evs ++ [Settle (Rejected e)]) =
    lastResult Permission_isEqual evs /\
  NoDup (keys (res_allowedActions r)) /\
  forall K, get K (res_allowedActions r) =
            if mem K (map actionKey
                        (actionNames action
                           (grantedList (lastResult Permission_isEqual evs))))
            then Some true
            else if mem K (map actionKey (actionNames action (normalized env)))
            then Some false else None.
Proof.
  intros h' r.
  assert (Hlast : lastResult Permission_isEqual (evs ++ [Settle (Rejected e)]) =
                  lastResult Permission_isEqual evs).
  { unfold lastResult. now rewrite fold_left_app. }
  assert (Hh' : error h' = e /\ isLoading h' = false).
  { subst h'. rewrite run_snoc, step_settle. split; reflexivity. }
  destruct Hh' as (He & Hl).
  assert (Hr : res_allowedActions r =
               allowedActions (defaultAllowedActions action (normalized env))
                 (stored action (lastResult Permission_isEqual evs))).
  { subst r h'. now rewrite returned_allowedActions, data_run, Hlast. }
  repeat split; auto.
  - subst r. now rewrite returned_error.
  - subst r. now rewrite returned_isLoading, Hl.
  - rewrite Hr. apply NoDup_allowedActions.
  - intros K. rewrite Hr. apply get_allowedActions_total.
Qed.

(** *** While a check is pending *)

Lemma checking_preserved (later : list Env) : forall (st : Hook * Process),
  isLoading (fst st) = true /\ data (fst st) = None ->
  let st' := run action Permission_isEqual (map Render later) st in
  isLoading (fst st') = true /\ data (fst st') = None.
Proof.
  induction later as [|env later IH]; intros [h w] Hst; [exact Hst|].
  unfold run in *. cbn [map fold_left]. apply IH.
  rewrite step_render. unfold effect.
  destruct (depsChanged env); [|exact Hst].
  destruct (effect_condition _ _ _); [simpl; auto|exact Hst].
Qed.

(** C8 (as amended): from any prior state, from the render whose effect
    starts a check, through any further renders (re-triggering or not)
    and until the first settlement of any check the hook started, every
    requested action's flag in the returned map is [false] and the
    reported [isLoading] is [true]. *)
Theorem pending_check_all_false
    (env0 : Env) (later : list Env) (env : Env) (h : Hook) (w : Process) :
  depsChanged env0 = true ->
  effect_condition Permission_isEqual env0 (normalized env0) = true ->
  let h' := fst (run action Permission_isEqual (map Render (env0 :: later)) (h, w)) in
  let r := returned action env h' in
  res_isLoading r = true /\
  forall p, In p (normalized env) -> flagOf action r p = Some false.
Proof.
  intros Hdeps Hc h' r.
  assert (Hh' : isLoading h' = true /\ data h' = None).
  { subst h'. cbn [map].
    rewrite (run_app [Render env0] (map Render later)). apply checking_preserved.
    unfold run. cbn [fold_left].
    rewrite step_render, Hdeps.
    destruct (data_started env0 h _ Hc) as (Hd & Hl & _).
    auto. }
  destruct Hh' as [Hl Hd]. split.
  - subst r. now rewrite returned_isLoading, Hl.
  - intros p Hp. unfold flagOf. subst r.
    rewrite returned_allowedActions, Hd.
    change (@None (t bool)) with (stored action None).
    rewrite get_allowedActions by apply capitalise_getActionName.
    simpl. replace (mem _ _) with true; [reflexivity|].
    symmetry. apply mem_In. now apply in_map.
Qed.

(** *** The returned permissions *)

(** C9: whatever happened to the hook before (renders, fulfilled or
    rejected checks) and whatever the console holds, the [permissions]
    field returned by a render is the normalized input of that render:
    the array as given, or the flattened values of the mapping. *)
Theorem permissions_are_normalized_input
    (evs : list Event) (st : Hook * Process) (env : Env) (w : Process) :
  res_permissions
    (fst (useRBAC action env (fst (run action Permission_isEqual evs st)) w)) =
  match permissionsArg env with
  | ArrayForm l => l
  | ObjectForm o => List.concat (map snd o)
  end.
Proof.
  rewrite useRBAC_fst, returned_permissions. apply normalized_cases.
Qed.

(** *** The deprecated object form *)

Lemma normalized_arrayFormEnv (env : Env) :
  normalized (arrayFormEnv env) = normalized env.
Proof.
  rewrite !normalized_cases. unfold permissionsArg, arrayFormEnv. simpl.
  destruct (permissionsToCheck env) as [[l|o]|]; reflexivity.
Qed.

Lemma returned_arrayFormEnv (env : Env) (h : Hook) :
  returned action (arrayFormEnv env) h = returned action env h.
Proof.
  unfold returned, useRBAC, bind, useMemo, permissionsArg, arrayFormEnv. simpl.
  destruct (memoStale env); destruct (permissionsToCheck env) as [[l|o]|];
    reflexivity.
Qed.

Lemma run_arrayFormEvent (evs : list Event) : forall (h : Hook) (w1 w2 : Process),
  fst (run action Permission_isEqual (map arrayFormEvent evs) (h, w2)) =
  fst (run action Permission_isEqual evs (h, w1)).
Proof.
  induction evs as [|ev evs IH]; intros h w1 w2; [reflexivity|].
  unfold run in *. cbn [map fold_left].
  rewrite (surjective_pairing (step _ _ (arrayFormEvent ev) _)).
  rewrite (surjective_pairing (step _ _ ev (h, w1))).
  replace (fst (step action Permission_isEqual (arrayFormEvent ev) (h, w2)))
    with (fst (step action Permission_isEqual ev (h, w1))).
  - apply IH.
  - destruct ev as [env|c]; [|reflexivity].
    cbn [arrayFormEvent]. rewrite !step_render, normalized_arrayFormEnv.
    unfold effect, effect_condition. reflexivity.
Qed.

(** C7: a hook called with mappings of groups and a hook called, render
    for render, with the flattened arrays of their values go through the
    same states and return the same [allowedActions] and [permissions]
    (and the same loading flag and error). *)
Theorem object_form_same_as_flattened_array
    (evs : list Event) (h : Hook) (w w1 w2 : Process) (env : Env) :
  let h1 := fst (run action Permission_isEqual evs (h, w)) in
  let h2 := fst (run action Permission_isEqual (map arrayFormEvent evs) (h, w)) in
  h2 = h1 /\
  fst (useRBAC action (arrayFormEnv env) h2 w2) = fst (useRBAC action env h1 w1) /\
  res_permissions (fst (useRBAC action (arrayFormEnv env) h2 w2)) =
    match permissionsArg env with
    | ArrayForm l => l
    | ObjectForm o => List.concat (map snd o)
    end.
Proof.
  intros h1 h2.
  assert (E : h2 = h1) by apply run_arrayFormEvent.
  split; [exact E|]. rewrite E, !useRBAC_fst, returned_arrayFormEnv.
  split; [reflexivity|].
  rewrite returned_permissions. apply normalized_cases.
Qed.

(** *** The deprecation warning *)

Lemma step_warned (ev : Event) (st : Hook * Process) :
  warned_at_most_once (snd st) ->
  warned_at_most_once (snd (step action Permission_isEqual ev st)).
Proof.
  destruct st as [h w]. cbn [snd]. intros Hw.
  destruct ev as [env|c]; [|exact Hw].
  unfold step, useRBAC, bind, useMemo. cbn [fst snd].
  destruct (memoStale env);
    [|destruct (actualPermissionsToCheck (permissionsArg env) w); exact Hw].
  destruct (permissionsArg env) as [l|o]; [exact Hw|].
  unfold actualPermissionsToCheck, bind, warnOnce, once, console_warn, ret.
  destruct Hw as [[Hf Hl]|[Ht Hl]].
  - rewrite Hf. right. simpl. rewrite Hl. auto.
  - rewrite Ht. right. simpl. auto.
Qed.

(** C4: however many hooks are mounted and however often each of them
    renders with the object form, the console holds the deprecation
    warning at most once. *)
Theorem deprecation_warning_at_most_once (evs : list (nat * Event)) :
  let log := console (process (sys_run action Permission_isEqual evs initialSystem)) in
  List.length log <= 1 /\ (log = [] \/ log = [deprecation_message]).
Proof.
  assert (H : forall sys : @System Permission JSValue,
            warned_at_most_once (process sys) ->
            warned_at_most_once
              (process (sys_run action Permission_isEqual evs sys))).
  { induction evs as [|[i ev] evs IH]; intros sys Hsys; [exact Hsys|].
    unfold sys_run in *. cbn [fold_left]. apply IH.
    unfold sys_step. cbn [fst snd].
    pose proof (step_warned ev (instances sys i, process sys) Hsys) as Hs.
    destruct (step action Permission_isEqual ev (instances sys i, process sys)).
    exact Hs. }
  intros log.
  destruct (H initialSystem) as [[_ Hl]|[_ Hl]].
  - left. split; reflexivity.
  - subst log. rewrite Hl. simpl. auto.
  - subst log. rewrite Hl. simpl. auto.
Qed.

End LifeCycle.

(** ** The action-name deriver *)

Lemma last_segment_exists (a : string) :
  slice_last (split "." a) = [last (split "." a) EmptyString].
Proof. apply slice_last_singleton, split_not_nil. Qed.

Lemma join_capitalised_empty (s : string) :
  join (map capitalise (split "-" s)) = EmptyString <-> all_are "-" s = true.
Proof.
  induction s as [|c s IH]; simpl; [tauto|].
  destruct (Ascii.eqb c "-") eqn:E; simpl.
  - rewrite join_cons. exact IH.
  - pose proof (split_not_nil "-" s) as Hne.
    destruct (split "-" s) as [|seg segs]; [congruence|].
    simpl map. rewrite join_cons. simpl. split; discriminate.
Qed.

(** C2: the derived action name is the last ['.']-segment of the action,
    split on ['-'], each part capitalised, the parts concatenated;
    ["admin::roles.create"] gives the key [canCreate] and
    ["admin::roles.create-draft"] gives [canCreateDraft], also as keys of
    the returned map. *)
Theorem getActionName_follows_spec :
  (forall (Permission : Type) (action : Permission -> string) (p : Permission),
     getActionName action p = spec_derivedActionName (action p)) /\
  actionKey (getActionName ao_action {| ao_action := "admin::roles.create" |})
    = "canCreate" /\
  actionKey (getActionName ao_action {| ao_action := "admin::roles.create-draft" |})
    = "canCreateDraft" /\
  JSObject.keys
    (res_allowedActions
       (returned ao_action
          (mountEnv [ {| ao_action := "admin::roles.create" |};
                      {| ao_action := "admin::roles.create-draft" |} ])
          (@initialHook ActionOnly unit)))
    = ["canCreate"; "canCreateDraft"].
Proof.
  split; [|repeat split].
  intros Permission action p.
  unfold getActionName, spec_derivedActionName, join.
  now rewrite last_segment_exists.
Qed.

(** C3 (as amended): for a permission whose action string contains no dot
    the derived action name is the whole action string, split on ['-'],
    each part capitalised, the parts concatenated; it is the empty string
    exactly when the action string consists of hyphens alone (the empty
    string included). *)
Theorem getActionName_without_dot
    {Permission : Type} (action : Permission -> string) (p : Permission) :
  contains "." (action p) = false ->
  getActionName action p = join (map capitalise (split "-" (action p))) /\
  (getActionName action p = EmptyString <-> all_are "-" (action p) = true).
Proof.
  intros Hdot.
  assert (E : getActionName action p =
              join (map capitalise (split "-" (action p)))).
  { unfold getActionName. now rewrite (split_without_separator _ _ Hdot). }
  split; [exact E|]. rewrite E. apply join_capitalised_empty.
Qed.

(** C3, the claim as stated fails: the action ["create"] has no dot and
    its derived action name is ["Create"], not the empty string. *)
Lemma nodot_action_name_not_empty :
  contains "." (ao_action {| ao_action := "create" |}) = false /\
  getActionName ao_action {| ao_action := "create" |} = "Create" /\
  getActionName ao_action {| ao_action := "create" |} <> EmptyString.
Proof. repeat split. discriminate. Qed.

(** C10: the deriver always finds a last segment, so it returns a string
    for every permission; for a permission whose action string is empty
    the derived name is the empty string, the key is exactly ["can"], and
    the map returned for that permission alone holds that one key. *)
Theorem empty_action_gives_can
    {Permission JSValue : Type} (action : Permission -> string) (p : Permission) :
  action p = EmptyString ->
  (forall q, exists seg,
     slice_last (split "." (action q)) = [seg] /\
     getActionName action q = join (map capitalise (split "-" seg))) /\
  getActionName action p = EmptyString /\
  actionKey (getActionName action p) = "can" /\
  res_allowedActions
    (returned action (mountEnv [p]) (@initialHook Permission JSValue))
    = [("can", false)].
Proof.
  intros Hp.
  assert (E : getActionName action p = EmptyString).
  { unfold getActionName. rewrite Hp. reflexivity. }
  split; [|split; [exact E|split]].
  - intros q. exists (last (split "." (action q)) EmptyString).
    split; [apply last_segment_exists|].
    unfold getActionName. now rewrite last_segment_exists.
  - now rewrite E.
  - unfold returned, useRBAC, bind, mountEnv, permissionsArg. simpl.
    unfold defaultAllowedActions, flagAction. simpl. rewrite E. reflexivity.
Qed.

(** ** Concrete runs *)

(** C1, the claim as stated fails: asked about [admin::roles.create]
    alone, a check that resolves with [admin::roles.delete] puts the key
    [canDelete] into the returned map, which no input permission
    derives; a check that resolves with the empty list does not. *)
Lemma resolved_list_adds_keys :
  let env := mountEnv [roles_create] in
  let aa1 := res_allowedActions (returned ao_action env
               (checkAndSettle ao_action ActionOnly_eqb env
                  (Fulfilled (Some [roles_delete])) demoHook)) in
  let aa2 := res_allowedActions (returned ao_action env
               (checkAndSettle ao_action ActionOnly_eqb env
                  (Fulfilled (Some [])) demoHook)) in
  aa1 = [("canCreate", false); ("canDelete", true)] /\
  aa2 = [("canCreate", false)] /\
  JSObject.keys aa1 <> JSObject.keys aa2 /\
  ~ (forall K, In K (JSObject.keys aa1) ->
               In K (map actionKey (actionNames ao_action (normalized env)))).
Proof.
  repeat split; try discriminate.
  intros H. specialize (H "canDelete" (or_intror (or_introl eq_refl))).
  simpl in H. destruct H as [H|[]]. discriminate.
Qed.

Lemma allowedActions_keys_from_input_witness :
  let evs := [@Render ActionOnly nat (mountEnv [roles_create]); Render demoEnv;
              Settle (Fulfilled (Some [roles_create]));
              Settle (Rejected (Some 7));
              Settle (Fulfilled (Some [roles_delete]))] in
  let aa := res_allowedActions
              (returned ao_action demoEnv
                 (fst (run ao_action ActionOnly_eqb evs (initialHook, initialProcess)))) in
  NoDup (JSObject.keys aa) /\
  forall K, In K (JSObject.keys aa) <->
            In K (map actionKey (actionNames ao_action (normalized demoEnv))).
Proof.
  apply (allowedActions_keys_from_input ao_action ActionOnly_eqb
           [Render (mountEnv [roles_create]); Render demoEnv;
            Settle (Fulfilled (Some [roles_create]));
            Settle (Rejected (Some 7));
            Settle (Fulfilled (Some [roles_delete]))]
           initialProcess demoEnv).
  intros n [<-|[]]. right. left. reflexivity.
Defined.

(** C5, the claim as stated fails: asked about [admin::roles.create]
    after an earlier check about [admin::roles.delete] was started, the
    earlier check's fulfilment followed by the rejection of the current
    check leaves [canDelete] set in the returned map, which is not the
    all-false default; and while auth is loading the reported
    [isLoading] after a rejection is [true]. *)
Lemma rejection_keeps_stored_result :
  let env := mountEnv [roles_create] in
  let h' := fst (run ao_action ActionOnly_eqb
                   [Render (mountEnv [roles_delete]); Render env;
                    Settle (Fulfilled (Some [roles_delete]));
                    Settle (Rejected (Some 7))]
                   (demoHook, initialProcess)) in
  error h' = Some 7 /\
  res_allowedActions (returned ao_action env h') =
    [("canCreate", false); ("canDelete", true)] /\
  res_allowedActions (returned ao_action env h') <> [("canCreate", false)] /\
  res_isLoading
    (returned ao_action authLoadingEnv
       (fst (run ao_action ActionOnly_eqb
               [Render authLoadingEnv; Settle (Rejected (Some 7))]
               (demoHook, initialProcess)))) = true.
Proof. repeat split. discriminate. Qed.

(** C8, the claim as stated fails: a check about [admin::roles.create] is
    started, then one about [admin::users.create]; when the first is
    fulfilled the second is still outstanding (two calls, one
    settlement), yet the reported [isLoading] is [false] and the flag of
    the requested [admin::users.create] is [true]. *)
Lemma settlement_of_other_check_ends_pending :
  let env := mountEnv [users_create] in
  let h' := fst (run ao_action ActionOnly_eqb
                   [Render (mountEnv [roles_create]); Render env;
                    Settle (Fulfilled (Some [roles_create]))]
                   (demoHook, initialProcess)) in
  checkCalls h' = [([roles_create], None); ([users_create], None)] /\
  res_isLoading (returned ao_action env h') = false /\
  flagOf ao_action (returned ao_action env h') users_create = Some true.
Proof. repeat split. Qed.

Lemma granted_actions_flagged_witness :
  let r := returned ao_action demoEnv
             (checkAndSettle ao_action ActionOnly_eqb demoEnv
                (Fulfilled (Some [roles_delete])) demoHook) in
  (forall K, JSObject.get K (res_allowedActions r) = Some true <->
             exists g, In g [roles_delete] /\
                       K = actionKey (getActionName ao_action g)) /\
  (forall p, In p [roles_delete] -> flagOf ao_action r p = Some true) /\
  (forall p, In p (normalized demoEnv) ->
             ~ In (getActionName ao_action p) (actionNames ao_action [roles_delete]) ->
             flagOf ao_action r p = Some false) /\
  (forall K, In K (JSObject.keys (res_allowedActions r)) ->
             exists p, In p (normalized demoEnv) /\
                       K = actionKey (getActionName ao_action p)).
Proof.
  apply (granted_actions_flagged ao_action ActionOnly_eqb demoEnv demoHook
           [roles_delete]).
  - reflexivity.
  - intros g [<-|[]]. right. left. reflexivity.
Defined.

Lemma pending_check_all_false_witness :
  let h' := fst (run ao_action ActionOnly_eqb
                   (map Render [demoEnv; mountEnv [roles_create]; demoEnv])
                   (demoHook, initialProcess)) in
  let r := returned ao_action demoEnv h' in
  res_isLoading r = true /\
  forall p, In p (normalized demoEnv) -> flagOf ao_action r p = Some false.
Proof.
  apply (pending_check_all_false ao_action ActionOnly_eqb demoEnv
           [mountEnv [roles_create]; demoEnv] demoEnv demoHook initialProcess).
  - reflexivity.
  - reflexivity.
Defined.

Lemma getActionName_without_dot_witness :
  let p := {| ao_action := "create-draft" |} in
  getActionName ao_action p = join (map capitalise (split "-" (ao_action p))) /\
  (getActionName ao_action p = EmptyString <-> all_are "-" (ao_action p) = true).
Proof.
  apply (getActionName_without_dot ao_action {| ao_action := "create-draft" |}).
  reflexivity.
Defined.

Lemma empty_action_gives_can_witness :
  let p := {| ao_action := EmptyString |} in
  (forall q, exists seg,
     slice_last (split "." (ao_action q)) = [seg] /\
     getActionName ao_action q = join (map capitalise (split "-" seg))) /\
  getActionName ao_action p = EmptyString /\
  actionKey (getActionName ao_action p) = "can" /\
  res_allowedActions (returned ao_action (mountEnv [p]) demoHook)
    = [("can", false)].
Proof.
  apply (@empty_action_gives_can ActionOnly nat ao_action {| ao_action := EmptyString |}).
  reflexivity.
Defined.

(** ** Further facts about strings *)

Lemma split_app_separator sep a b :
  split sep (String.append a (String sep b)) = split sep a ++ split sep b.
Proof.
  induction a as [|c a IH]; simpl.
  - now rewrite Ascii.eqb_refl.
  - rewrite IH. destruct (Ascii.eqb c sep); [reflexivity|].
    pose proof (split_not_nil sep a) as Hne.
    destruct (split sep a) as [|seg segs]; [congruence|reflexivity].
Qed.

Lemma last_app_not_nil {A : Type} (l1 l2 : list A) (d : A) :
  l2 <> [] -> last (l1 ++ l2) d = last l2 d.
Proof.
  intros Hne. induction l1 as [|x l1 IH]; [reflexivity|].
  simpl app. destruct (l1 ++ l2) eqn:E.
  - destruct l1; [simpl in E; congruence|discriminate].
  - exact IH.
Qed.

Lemma contains_append c a b :
  contains c (String.append a b) = contains c a || contains c b.
Proof.
  induction a as [|x a IH]; simpl; [reflexivity|].
  now rewrite IH, orb_assoc.
Qed.

(** No segment of a split holds the separator. *)
Lemma split_segments_without_separator sep s :
  Forall (fun seg => contains sep seg = false) (split sep s).
Proof.
  induction s as [|c s IH]; simpl.
  - repeat constructor.
  - destruct (Ascii.eqb c sep) eqn:E.
    + constructor; [reflexivity|exact IH].
    + pose proof (split_not_nil sep s) as Hne.
      destruct (split sep s) as [|seg segs]; [congruence|].
      inversion IH; subst. constructor; [|assumption].
      simpl. now rewrite E.
Qed.

(** The segments of a string that lacks a character lack it too. *)
Lemma split_segments_lack c sep s :
  contains c s = false ->
  Forall (fun seg => contains c seg = false) (split sep s).
Proof.
  induction s as [|x s IH]; simpl; intros H.
  - repeat constructor.
  - apply orb_false_iff in H as [Hx Hs]. specialize (IH Hs).
    destruct (Ascii.eqb x sep).
    + constructor; [reflexivity|exact IH].
    + pose proof (split_not_nil sep s) as Hne.
      destruct (split sep s) as [|seg segs]; [congruence|].
      inversion IH; subst. constructor; [|assumption].
      simpl. now rewrite Hx.
Qed.

Lemma toUpperCase_not_dot c : Ascii.eqb (toUpperCase c) "." = Ascii.eqb c ".".
Proof. destruct c as [[] [] [] [] [] [] [] []]; reflexivity. Qed.

Lemma toUpperCase_not_hyphen c : Ascii.eqb (toUpperCase c) "-" = Ascii.eqb c "-".
Proof. destruct c as [[] [] [] [] [] [] [] []]; reflexivity. Qed.

Lemma contains_capitalise c s :
  (forall x, Ascii.eqb (toUpperCase x) c = Ascii.eqb x c) ->
  contains c (capitalise s) = contains c s.
Proof.
  intros H. destruct s as [|x s]; simpl; [reflexivity|]. now rewrite H.
Qed.

Lemma contains_join_capitalised c parts :
  (forall x, Ascii.eqb (toUpperCase x) c = Ascii.eqb x c) ->
  Forall (fun seg => contains c seg = false) parts ->
  contains c (join (map capitalise parts)) = false.
Proof.
  intros Hc H. induction H as [|seg parts Hseg _ IH]; [reflexivity|].
  simpl map. rewrite join_cons, contains_append, IH, orb_false_r.
  now rewrite contains_capitalise.
Qed.

Lemma last_Forall {A : Type} (P : A -> Prop) (l : list A) (d : A) :
  l <> [] -> Forall P l -> P (last l d).
Proof.
  intros Hne H. induction H as [|x l Hx Hl IH]; [congruence|].
  destruct l as [|y l]; [exact Hx|]. apply IH. discriminate.
Qed.

Lemma locale_differs_neq (a b : option string) :
  locale_differs a b = true <-> a <> b.
Proof.
  destruct a as [x|], b as [y|]; simpl.
  - rewrite negb_true_iff. split.
    + intros H E. injection E as ->. now rewrite String.eqb_refl in H.
    + intros H. destruct (String.eqb_spec x y) as [->|_]; [congruence|reflexivity].
  - split; [discriminate|reflexivity].
  - split; [discriminate|reflexivity].
  - split; [discriminate|congruence].
Qed.

(** ** Further facts about objects *)

Module JSObjectSize.
Import JSObject JSObjectFacts.

Section Size.
Context {V : Type}.
Implicit Types (o src dst : t V) (k : string) (v : V).

Lemma length_update k v o : List.length (update k v o) = List.length o.
Proof.
  induction o as [|[k0 v0] o IH]; simpl; [reflexivity|].
  destruct (String.eqb k0 k); simpl; [reflexivity|now rewrite IH].
Qed.

Lemma length_add k v o : List.length (add k v o) = S (List.length o).
Proof.
  induction o as [|[k0 v0] o IH]; simpl; [reflexivity|].
  destruct (key_before k k0); simpl; [reflexivity|now rewrite IH].
Qed.

Lemma length_set_le k v o : List.length (set k v o) <= S (List.length o).
Proof.
  unfold set. destruct (has k o).
  - rewrite length_update. lia.
  - rewrite length_add. lia.
Qed.

Lemma length_spread_le src : forall dst,
  List.length (spread src dst) <= List.length src + List.length dst.
Proof.
  unfold spread. induction src as [|[k v] src IH]; simpl; intros dst; [lia|].
  specialize (IH (set k v dst)). pose proof (length_set_le k v dst). lia.
Qed.

End Size.

End JSObjectSize.

(** ** Further properties of the hook *)

Section FurtherProperties.

Context {Permission JSValue : Type}.
Variable action : Permission -> string.
Variable Permission_isEqual : Permission -> Permission -> bool.

Import JSObject JSObjectFacts JSObjectSize.

Local Abbreviation Env := (@Env Permission).
Local Abbreviation Hook := (@Hook Permission JSValue).
Local Abbreviation Settlement := (@Settlement Permission JSValue).
Local Abbreviation Event := (@Event Permission JSValue).

(** *** The deriver *)

(** X1: whatever precedes the last dot is ignored: an action string and
    the same string behind any prefix that ends in a dot derive the same
    action name. *)
Theorem getActionName_last_segment_only (p q : Permission) (prefix : string) :
  action p = String.append prefix (String "." (action q)) ->
  getActionName action p = getActionName action q.
Proof.
  intros Hp. unfold getActionName.
  rewrite !last_segment_exists, Hp, split_app_separator.
  rewrite last_app_not_nil by apply split_not_nil. reflexivity.
Qed.

(** X2: a derived action name holds neither a dot nor a hyphen. *)
Theorem getActionName_has_no_separator (p : Permission) :
  contains "." (getActionName action p) = false /\
  contains "-" (getActionName action p) = false.
Proof.
  unfold getActionName. rewrite last_segment_exists. split.
  - apply contains_join_capitalised; [apply toUpperCase_not_dot|].
    apply split_segments_lack.
    apply (last_Forall (fun seg => contains "." seg = false)).
    + apply split_not_nil.
    + apply split_segments_without_separator.
  - apply contains_join_capitalised; [apply toUpperCase_not_hyphen|].
    apply split_segments_without_separator.
Qed.

(** X3: the shaper's [capitalise] changes nothing on a derived name: the
    key of a permission's flag is ["can"] followed by the derived name. *)
Theorem actionKey_of_derived_name (p : Permission) :
  actionKey (getActionName action p) =
  String.append "can" (getActionName action p).
Proof.
  unfold actionKey. now rewrite capitalise_getActionName.
Qed.

(** *** The default map *)

Lemma length_fold_flagAction b (l : list Permission) : forall acc,
  List.length (fold_left (flagAction action b) l acc) <=
  List.length l + List.length acc.
Proof.
  induction l as [|p l IH]; simpl; intros acc; [lia|].
  specialize (IH (flagAction action b acc p)).
  assert (H1 : List.length (flagAction action b acc p) <= S (List.length acc)).
  { unfold flagAction.
    pose proof (length_set_le (getActionName action p) b (spread acc [])) as Hs.
    pose proof (length_spread_le acc []) as Hsp. cbn [List.length] in Hsp. lia. }
  lia.
Qed.

(** X4: the default map holds [false] under exactly the derived action
    names of the list, each name once, so it never has more entries than
    the list has permissions. *)
Theorem defaultAllowedActions_lookup (l : list Permission) :
  (forall n, get n (defaultAllowedActions action l) =
             if mem n (actionNames action l) then Some false else None) /\
  NoDup (keys (defaultAllowedActions action l)) /\
  List.length (defaultAllowedActions action l) <= List.length l.
Proof.
  unfold defaultAllowedActions. split; [|split].
  - intros n. now rewrite get_fold_flagAction by constructor.
  - apply NoDup_fold_flagAction. constructor.
  - pose proof (length_fold_flagAction false l []). simpl in *. lia.
Qed.

(** *** The effect *)

(** X5: at the first render (nothing checked before) and whenever the
    debounced locale differs from the one checked, the effect clears the
    result and the error, sets loading, and calls the external check once
    with the normalized list and the passed permissions. *)
Theorem effect_starts_check (env : Env) (actual : list Permission) (h : Hook) :
  permssionsChecked env = None \/ localeChecked env <> debouncedLocale env ->
  effect Permission_isEqual env actual h =
  {| isLoading := true; error := None; data := None;
     checkCalls := checkCalls h ++ [(actual, passedPermissions env)] |}.
Proof.
  intros H.
  assert (Hc : effect_condition Permission_isEqual env actual = true).
  { unfold effect_condition. destruct H as [H|H].
    - rewrite H. reflexivity.
    - apply locale_differs_neq in H. rewrite H. apply orb_true_r. }
  unfold effect. rewrite Hc. reflexivity.
Qed.

Lemma isEqual_list_refl (l : list Permission) :
  (forall p, Permission_isEqual p p = true) ->
  isEqual_list Permission_isEqual l l = true.
Proof.
  intros Hrefl. induction l as [|p l IH]; simpl; [reflexivity|].
  now rewrite Hrefl, IH.
Qed.

(** X6: when the list checked before equals the normalized list and the
    locale is the one checked, the effect does nothing: no state is
    touched and no check is called. *)
Theorem effect_skipped_when_unchanged (env : Env) (actual : list Permission) (h : Hook) :
  (forall p, Permission_isEqual p p = true) ->
  permssionsChecked env = Some actual ->
  localeChecked env = debouncedLocale env ->
  effect Permission_isEqual env actual h = h.
Proof.
  intros Hrefl Hp Hl. unfold effect, effect_condition.
  rewrite Hp, Hl. simpl. rewrite (isEqual_list_refl _ Hrefl). simpl.
  replace (locale_differs _ _) with false; [reflexivity|].
  symmetry. destruct (locale_differs (debouncedLocale env) (debouncedLocale env)) eqn:E;
    [|reflexivity].
  apply locale_differs_neq in E. congruence.
Qed.


Lemma checkCalls_run (evs : list Event) (h : Hook) (w : Process) :
  checkCalls (fst (run action Permission_isEqual evs (h, w))) =
  checkCalls h ++ map callOf (triggeringRenders Permission_isEqual evs).
Proof.
  revert h w. induction evs as [|ev evs IH]; intros h w.
  - simpl. now rewrite app_nil_r.
  - unfold run in *. cbn [fold_left].
    rewrite (surjective_pairing (step _ _ ev (h, w))), IH.
    destruct ev as [env|c].
    + rewrite step_render. cbn [triggeringRenders]. unfold triggering, effect.
      destruct (depsChanged env); [|now simpl].
      destruct (effect_condition _ _ _); simpl; [|reflexivity].
      now rewrite <- app_assoc.
    + cbn [triggeringRenders]. rewrite step_settle. cbn [fst].
      destruct c as [[granted|]|err]; reflexivity.
Qed.

(** X7: over any trace the external check is called once per render whose
    effect runs and triggers, in order, with that render's normalized list
    and passed permissions; settlements and other renders call nothing. *)
Theorem checkCalls_of_run (evs : list Event) (h : Hook) (w : Process) :
  checkCalls (fst (run action Permission_isEqual evs (h, w))) =
  checkCalls h ++ map callOf (triggeringRenders Permission_isEqual evs).
Proof. apply checkCalls_run. Qed.

(** *** States reached from a mounted hook *)

Lemma reached_data (evs : list Event) (w : Process) :
  let h := fst (run action Permission_isEqual evs (initialHook, w)) in
  data h = None \/
  exists granted, In (Settle (Fulfilled (Some granted))) evs /\
                  data h = stored action (Some granted).
Proof.
  induction evs as [|ev evs IH] using rev_ind; [now left|].
  cbn zeta in *. rewrite run_snoc.
  destruct (run action Permission_isEqual evs (initialHook, w)) as [h w'].
  cbn [fst] in IH.
  assert (Hkeep : data h = None \/
            exists granted, In (Settle (Fulfilled (Some granted))) (evs ++ [ev]) /\
                            data h = stored action (Some granted)).
  { destruct IH as [IH|(g & Hin & Hd)]; [now left|right].
    exists g. split; [apply in_or_app; now left|exact Hd]. }
  destruct ev as [env|c].
  - rewrite step_render. unfold effect.
    destruct (depsChanged env); [|exact Hkeep].
    destruct (effect_condition _ _ _); [now left|exact Hkeep].
  - rewrite step_settle. cbn [fst].
    destruct c as [[granted|]|err]; simpl; try exact Hkeep.
    right. exists granted. split; [|reflexivity].
    apply in_or_app. right. now left.
Qed.

(** X8: in every state a mounted hook can reach (stale results included),
    every permission of the current input has a flag in the returned
    map. *)
Theorem every_requested_action_has_flag
    (evs : list Event) (w : Process) (env : Env) (p : Permission) :
  In p (normalized env) ->
  exists b,
    flagOf action
      (returned action env (fst (run action Permission_isEqual evs (initialHook, w))))
      p = Some b.
Proof.
  intros Hp. unfold flagOf. rewrite returned_allowedActions.
  assert (Hm : mem (getActionName action p) (actionNames action (normalized env)) = true).
  { apply mem_In. now apply in_map. }
  destruct (reached_data evs w) as [Hd|(g & _ & Hd)]; rewrite Hd.
  - change (@None (t bool)) with (stored action None).
    rewrite get_allowedActions by apply capitalise_getActionName.
    simpl. rewrite Hm. eauto.
  - rewrite get_allowedActions by apply capitalise_getActionName.
    destruct (mem _ (actionNames action (grantedList (Some g)))); [eauto|].
    rewrite Hm. eauto.
Qed.

(** X9: a flag of the returned map is [true] only if some check of the
    trace was fulfilled with a permission of that derived action name. *)
Theorem true_flag_needs_fulfilment
    (evs : list Event) (w : Process) (env : Env) (p : Permission) :
  flagOf action
    (returned action env (fst (run action Permission_isEqual evs (initialHook, w))))
    p = Some true ->
  exists granted,
    In (Settle (Fulfilled (Some granted))) evs /\
    In (getActionName action p) (actionNames action granted).
Proof.
  unfold flagOf. rewrite returned_allowedActions.
  destruct (reached_data evs w) as [Hd|(g & Hin & Hd)]; rewrite Hd.
  - change (@None (t bool)) with (stored action None).
    rewrite get_allowedActions by apply capitalise_getActionName. simpl.
    destruct (mem _ _); discriminate.
  - rewrite get_allowedActions by apply capitalise_getActionName. simpl.
    destruct (mem _ (actionNames action g)) eqn:E.
    + intros _. exists g. split; [exact Hin|now apply mem_In].
    + intros H.
      destruct (mem (getActionName action p) (actionNames action (normalized env)));
        discriminate H.
Qed.

(** X10: the hook reports an error value only if some check of the trace
    was rejected with that value. *)
Theorem error_needs_rejection (evs : list Event) (w : Process) (v : JSValue) :
  error (fst (run action Permission_isEqual evs (initialHook, w))) = Some v ->
  In (Settle (Rejected (Some v))) evs.
Proof.
  induction evs as [|ev evs IH] using rev_ind; [discriminate|].
  rewrite run_snoc.
  destruct (run action Permission_isEqual evs (initialHook, w)) as [h w'].
  cbn [fst] in IH. intros H. apply in_or_app.
  destruct ev as [env|c].
  - rewrite step_render in H. unfold effect in H.
    destruct (depsChanged env); [|left; auto].
    destruct (effect_condition _ _ _); [discriminate|left; auto].
  - rewrite step_settle in H. cbn [fst] in H.
    destruct c as [[granted|]|err]; simpl in H.
    + left. auto.
    + left. auto.
    + right. left. now subst.
Qed.

(** X11: until the first settlement a mounted hook stays as mounted or as
    a trigger left it: loading, with no result and no error. *)
Theorem loading_until_first_settlement (evs : list Event) (w : Process) :
  (forall c, ~ In (Settle c) evs) ->
  let h := fst (run action Permission_isEqual evs (initialHook, w)) in
  isLoading h = true /\ data h = None /\ error h = None.
Proof.
  induction evs as [|ev evs IH] using rev_ind; intros Hno; [cbn; auto|].
  cbn zeta. rewrite run_snoc.
  assert (Hno' : forall c, ~ In (Settle c) evs).
  { intros c Hin. apply (Hno c), in_or_app. now left. }
  specialize (IH Hno'). cbn zeta in IH.
  destruct (run action Permission_isEqual evs (initialHook, w)) as [h w'].
  cbn [fst] in IH.
  destruct ev as [env|c].
  - rewrite step_render. unfold effect.
    destruct (depsChanged env); [|exact IH].
    destruct (effect_condition _ _ _); [simpl; auto|exact IH].
  - exfalso. apply (Hno c), in_or_app. right. now left.
Qed.

(** X12: the hook cannot tell which check settled.  When two renders
    each started a check, the first fulfilment ends loading and installs
    its list although one check is still outstanding, and every granted
    permission is flagged [true] whatever the current input is. *)
Theorem first_settlement_wins
    (env1 env2 env : Env) (granted : list Permission) (h : Hook) (w : Process) :
  triggering Permission_isEqual env1 = true ->
  triggering Permission_isEqual env2 = true ->
  let h' := fst (run action Permission_isEqual
                   [Render env1; Render env2; Settle (Fulfilled (Some granted))]
                   (h, w)) in
  checkCalls h' = checkCalls h ++ [callOf env1; callOf env2] /\
  isLoading h' = false /\
  forall g, In g granted -> flagOf action (returned action env h') g = Some true.
Proof.
  intros H1 H2 h'.
  assert (Hc : checkCalls h' = checkCalls h ++ [callOf env1; callOf env2]).
  { subst h'. rewrite checkCalls_run. cbn [triggeringRenders].
    now rewrite H1, H2. }
  assert (Hs : isLoading h' = false /\ data h' = stored action (Some granted)).
  { subst h'.
    change [Render env1; Render env2; Settle (Fulfilled (Some granted))]
      with ([@Render Permission JSValue env1; Render env2]
            ++ [Settle (Fulfilled (Some granted))]).
    rewrite run_snoc, step_settle. cbn [fst].
    split; reflexivity. }
  destruct Hs as [Hl Hd]. split; [exact Hc|split; [exact Hl|]].
  intros g Hg. unfold flagOf. rewrite returned_allowedActions, Hd.
  rewrite get_allowedActions by apply capitalise_getActionName. simpl.
  replace (mem _ (actionNames action granted)) with true; [reflexivity|].
  symmetry. apply mem_In. now apply in_map.
Qed.

(** X13: whatever the hook held before, a fulfilment with [undefined]
    ends loading and changes neither the stored result, the error nor the
    returned map; a fulfilment with the empty list ends loading, keeps the
    error and leaves every requested flag [false]. *)
Theorem fulfilment_without_grants (env : Env) (h : Hook) :
  let h1 := settle action (Fulfilled None) h in
  let h2 := settle action (Fulfilled (Some [])) h in
  (isLoading h1 = false /\ error h1 = error h /\ data h1 = data h /\
   res_allowedActions (returned action env h1) =
     res_allowedActions (returned action env h)) /\
  (isLoading h2 = false /\ error h2 = error h /\
   forall p, In p (normalized env) ->
             flagOf action (returned action env h2) p = Some false).
Proof.
  intros h1 h2. split.
  - repeat split. now rewrite !returned_allowedActions.
  - repeat split. intros p Hp. unfold flagOf.
    rewrite returned_allowedActions.
    change (data h2) with (stored action (Some [])).
    rewrite get_allowedActions by apply capitalise_getActionName. simpl.
    replace (mem _ _) with true; [reflexivity|].
    symmetry. apply mem_In. now apply in_map.
Qed.

Lemma mem_same_elements n (l1 l2 : list string) :
  (forall m, In m l1 <-> In m l2) -> mem n l1 = mem n l2.
Proof.
  intros H. destruct (mem n l2) eqn:E.
  - apply mem_In. apply H. now apply mem_In.
  - apply mem_false_In. intros Hin. apply mem_false_In in E. apply E.
    now apply H.
Qed.

(** X14: in every state a mounted hook can reach, the returned map depends
    on the input only through the set of its derived action names: order
    and repetition of the permissions do not change any entry. *)
Theorem flags_ignore_order_and_repeats
    (evs : list Event) (w : Process) (env1 env2 : Env) (K : string) :
  (forall n, In n (actionNames action (normalized env1)) <->
             In n (actionNames action (normalized env2))) ->
  let h := fst (run action Permission_isEqual evs (initialHook, w)) in
  get K (res_allowedActions (returned action env1 h)) =
  get K (res_allowedActions (returned action env2 h)).
Proof.
  intros Hsame h. rewrite !returned_allowedActions.
  assert (Hd : exists res, data h = stored action res).
  { destruct (reached_data evs w) as [Hd|(g & _ & Hd)];
      [exists None|exists (Some g)]; exact Hd. }
  destruct Hd as [res ->].
  assert (Hkeys : forall l1 l2,
            (forall n, In n (actionNames action l1) <-> In n (actionNames action l2)) ->
            In K (keys (allowedActions (defaultAllowedActions action l1) (stored action res))) ->
            get K (allowedActions (defaultAllowedActions action l1) (stored action res)) =
            get K (allowedActions (defaultAllowedActions action l2) (stored action res))).
  { intros l1 l2 H12 Hin. apply In_keys_allowedActions in Hin.
    destruct Hin as (n & -> & Hn).
    assert (Hfix : capitalise n = n)
      by (destruct Hn; eapply capitalise_actionNames; eauto).
    rewrite !get_allowedActions by exact Hfix.
    now rewrite (mem_same_elements n _ _ H12). }
  destruct (get K (allowedActions (defaultAllowedActions action (normalized env1))
                     (stored action res))) eqn:E1.
  - rewrite <- E1. apply Hkeys; [exact Hsame|].
    apply In_keys_get. congruence.
  - destruct (get K (allowedActions (defaultAllowedActions action (normalized env2))
                       (stored action res))) eqn:E2; [|reflexivity].
    exfalso.
    assert (Hin : In K (keys (allowedActions
                    (defaultAllowedActions action (normalized env2))
                    (stored action res)))) by (apply In_keys_get; congruence).
    pose proof (Hkeys _ (normalized env1)
                  (fun n => iff_sym (Hsame n)) Hin) as Hk.
    congruence.
Qed.

(** *** The normalizer and the console *)

Lemma step_array_keeps_console (env : Env) (st : Hook * Process) :
  arrayArgument env = true ->
  snd (step action Permission_isEqual (Render env) st) = snd st.
Proof.
  unfold arrayArgument, step, useRBAC, bind, useMemo.
  destruct (permissionsArg env) as [l|o]; [intros _|discriminate].
  destruct (memoStale env); reflexivity.
Qed.

(** X15: renders given the array form (or no first argument) never write
    to the console, however many hooks render how often. *)
Theorem array_form_never_warns
    (evs : list (nat * Event)) (sys : @System Permission JSValue) :
  (forall i env, In (i, Render env) evs -> arrayArgument env = true) ->
  process (sys_run action Permission_isEqual evs sys) = process sys.
Proof.
  revert sys. induction evs as [|[i ev] evs IH]; intros sys Harr; [reflexivity|].
  unfold sys_run in *. cbn [fold_left]. rewrite IH.
  - unfold sys_step. cbn [fst snd].
    destruct ev as [env|c].
    + pose proof (step_array_keeps_console env (instances sys i, process sys)
                    (Harr i env (or_introl eq_refl))) as Hs.
      destruct (step action Permission_isEqual (Render env)
                  (instances sys i, process sys)). exact Hs.
    + reflexivity.
  - intros j env Hin. apply (Harr j env). now right.
Qed.

(** X16: the object form is flattened without loss: a permission is in the
    normalized list exactly when it is in one of the groups, and the list
    is as long as the groups together. *)
Theorem object_form_flattening (env : Env) (o : JSObject.t (list Permission)) :
  permissionsArg env = ObjectForm o ->
  (forall p, In p (normalized env) <-> exists k l, In (k, l) o /\ In p l) /\
  List.length (normalized env) =
    list_sum (map (fun group => List.length (snd group)) o).
Proof.
  intros Ho. rewrite normalized_cases, Ho. split.
  - intros p. rewrite in_concat. split.
    + intros (l & Hl & Hp). apply in_map_iff in Hl.
      destruct Hl as ([k l'] & <- & Hin). now exists k, l'.
    + intros (k & l & Hin & Hp). exists l. split; [|exact Hp].
      apply in_map_iff. now exists (k, l).
  - now rewrite length_concat, map_map.
Qed.

(** X17: called without a first argument, the hook works on the empty
    list: it returns no permissions and, before any result is stored, an
    empty map, and the check it starts is given the empty list. *)
Theorem omitted_argument (env : Env) (h : Hook) :
  permissionsToCheck env = None ->
  data h = None ->
  let r := returned action env h in
  res_permissions r = [] /\ res_allowedActions r = [] /\
  callOf env = ([], passedPermissions env).
Proof.
  intros Harg Hd r.
  assert (Hn : normalized env = []).
  { rewrite normalized_cases. unfold permissionsArg. now rewrite Harg. }
  subst r. rewrite returned_permissions, returned_allowedActions, Hd, Hn.
  unfold callOf. rewrite Hn. repeat split.
Qed.

End FurtherProperties.

(** ** Concrete runs of the further properties *)

Lemma getActionName_last_segment_only_witness :
  getActionName ao_action roles_create =
  getActionName ao_action {| ao_action := "create" |}.
Proof.
  apply (getActionName_last_segment_only ao_action
           roles_create {| ao_action := "create" |} "admin::roles").
  reflexivity.
Defined.

Lemma effect_starts_check_witness :
  effect ActionOnly_eqb demoEnv (normalized demoEnv) demoHook =
  {| isLoading := true; error := None; data := None;
     checkCalls := checkCalls demoHook
                   ++ [(normalized demoEnv, passedPermissions demoEnv)] |}.
Proof.
  apply (effect_starts_check ActionOnly_eqb demoEnv (normalized demoEnv) demoHook).
  left. reflexivity.
Defined.

Lemma effect_skipped_when_unchanged_witness :
  effect ActionOnly_eqb settledEnv (normalized settledEnv) demoHook = demoHook.
Proof.
  apply (effect_skipped_when_unchanged ActionOnly_eqb settledEnv
           (normalized settledEnv) demoHook).
  - intros p. apply String.eqb_refl.
  - reflexivity.
  - reflexivity.
Defined.

Lemma every_requested_action_has_flag_witness :
  exists b,
    flagOf ao_action
      (returned ao_action demoEnv
         (fst (run ao_action ActionOnly_eqb
                 [Render (mountEnv [roles_create]);
                  Settle (Fulfilled (Some [roles_create]))]
                 (demoHook, initialProcess))))
      roles_delete = Some b.
Proof.
  apply (every_requested_action_has_flag ao_action ActionOnly_eqb
           [Render (mountEnv [roles_create]);
            Settle (Fulfilled (Some [roles_create]))]
           initialProcess demoEnv roles_delete).
  right. left. reflexivity.
Defined.

Lemma true_flag_needs_fulfilment_witness :
  exists granted,
    In (Settle (Fulfilled (Some granted)))
       [@Render ActionOnly nat demoEnv; Settle (Fulfilled (Some [roles_delete]))] /\
    In (getActionName ao_action roles_delete) (actionNames ao_action granted).
Proof.
  apply (true_flag_needs_fulfilment ao_action ActionOnly_eqb
           [Render demoEnv; Settle (Fulfilled (Some [roles_delete]))]
           initialProcess demoEnv roles_delete).
  reflexivity.
Defined.

Lemma error_needs_rejection_witness :
  In (Settle (Rejected (Some 7)))
     [@Render ActionOnly nat demoEnv; Settle (Rejected (Some 7))].
Proof.
  apply (error_needs_rejection ao_action ActionOnly_eqb
           [Render demoEnv; Settle (Rejected (Some 7))] initialProcess 7).
  reflexivity.
Defined.

Lemma loading_until_first_settlement_witness :
  let h := fst (run ao_action ActionOnly_eqb
                  [@Render ActionOnly nat demoEnv; Render settledEnv]
                  (initialHook, initialProcess)) in
  isLoading h = true /\ data h = None /\ error h = None.
Proof.
  apply (loading_until_first_settlement ao_action ActionOnly_eqb
           [Render demoEnv; Render settledEnv] initialProcess).
  intros c [H|[H|[]]]; discriminate H.
Defined.

Lemma first_settlement_wins_witness :
  let h' := fst (run ao_action ActionOnly_eqb
                   [Render (mountEnv [roles_delete]); Render (mountEnv [roles_create]);
                    Settle (Fulfilled (Some [roles_delete]))]
                   (demoHook, initialProcess)) in
  checkCalls h' = checkCalls demoHook
                  ++ [callOf (mountEnv [roles_delete]); callOf (mountEnv [roles_create])] /\
  isLoading h' = false /\
  forall g, In g [roles_delete] ->
            flagOf ao_action (returned ao_action (mountEnv [roles_create]) h') g
            = Some true.
Proof.
  apply (first_settlement_wins ao_action ActionOnly_eqb
           (mountEnv [roles_delete]) (mountEnv [roles_create])
           (mountEnv [roles_create]) [roles_delete] demoHook initialProcess).
  - reflexivity.
  - reflexivity.
Defined.

Lemma flags_ignore_order_and_repeats_witness :
  let h := fst (run ao_action ActionOnly_eqb
                  [@Render ActionOnly nat demoEnv; Settle (Fulfilled (Some [roles_delete]))]
                  (initialHook, initialProcess)) in
  JSObject.get "canDelete" (res_allowedActions (returned ao_action demoEnv h)) =
  JSObject.get "canDelete"
    (res_allowedActions
       (returned ao_action (mountEnv [roles_delete; roles_create; roles_delete]) h)).
Proof.
  apply (flags_ignore_order_and_repeats ao_action ActionOnly_eqb
           [Render demoEnv; Settle (Fulfilled (Some [roles_delete]))]
           initialProcess demoEnv
           (mountEnv [roles_delete; roles_create; roles_delete]) "canDelete").
  intros n. simpl. tauto.
Defined.

Lemma array_form_never_warns_witness :
  process (sys_run ao_action ActionOnly_eqb
             [(0, @Render ActionOnly nat demoEnv); (1, Render noArgumentEnv)]
             initialSystem)
  = process (@initialSystem ActionOnly nat).
Proof.
  apply (array_form_never_warns ao_action ActionOnly_eqb
           [(0, Render demoEnv); (1, Render noArgumentEnv)] initialSystem).
  intros i env [H|[H|[]]]; injection H as _ <-; reflexivity.
Defined.

Lemma object_form_flattening_witness :
  (forall p, In p (normalized groupedEnv) <->
             exists k l,
               In (k, l) [("roles", [roles_create]); ("users", [roles_delete])] /\
               In p l) /\
  List.length (normalized groupedEnv) =
    list_sum (map (fun group : string * list ActionOnly => List.length (snd group))
                  [("roles", [roles_create]); ("users", [roles_delete])]).
Proof.
  apply (object_form_flattening groupedEnv
           [("roles", [roles_create]); ("users", [roles_delete])]).
  reflexivity.
Defined.

Lemma omitted_argument_witness :
  let r := returned ao_action noArgumentEnv demoHook in
  res_permissions r = [] /\ res_allowedActions r = [] /\
  callOf noArgumentEnv = ([], passedPermissions noArgumentEnv).
Proof.
  apply (omitted_argument ao_action noArgumentEnv demoHook).
  - reflexivity.
  - reflexivity.
Defined.
